(** * fedrec.utilities.registry: a shallow embedding

    The module keeps one process-wide [LOOKUP_DICT], a
    [collections.defaultdict(dict)] from kind to bucket, a bucket being a
    dict from name to a registered callable.  [load] registers callables,
    [lookup] resolves them, [construct] and [instantiate] call them with
    arguments taken from a configuration dict, and [Registrable] adds a
    reverse index kept in the bucket of the reserved kind "class_map".

    Python dicts are modelled as stdpp [gmap]s (iteration order is not
    modelled), mutable dict objects that a caller can still see after a
    call live in an explicit object [heap], and every function of the
    module is a computation in a state-and-exception monad over [world]. *)

From Stdlib Require Import ZArith.
From stdpp Require Import gmap strings list fin_maps.

Open Scope string_scope.

(** ** Values, dicts and callables *)

(** Configuration values.  The registry never looks inside a value, except
    that [lookup] uses the value of the "name" field as a dict key; the
    model keeps the hashable atoms. *)
Inductive value : Type :=
  | VNone
  | VBool (b : bool)
  | VInt (z : Z)
  | VStr (s : string).

#[global] Instance value_eq_dec : EqDecision value.
Proof. solve_decision. Defined.

(** A dict with string keys ([config], [kwargs], [merged], [missing]). *)
Abbreviation dict := (gmap string value).

(** Addresses of dict objects in the heap. *)
Abbreviation loc := positive.

(** [inspect.Parameter.kind] *)
Inductive ParameterKind : Type :=
  | POSITIONAL_ONLY
  | POSITIONAL_OR_KEYWORD
  | VAR_POSITIONAL
  | KEYWORD_ONLY
  | VAR_KEYWORD.

#[global] Instance ParameterKind_eq_dec : EqDecision ParameterKind.
Proof. solve_decision. Defined.

(** What a registered object is: a plain function, or a class, which may or
    may not derive from [Registrable]. *)
Inductive callable_sort : Type :=
  | Function
  | Class (subclass_of_Registrable : bool).

(** A callable object: its identity ([id(obj)]), its [__module__] and
    [__name__], what it is, and [inspect.signature(obj).parameters] in
    declaration order. *)
Record callable : Type := Callable {
  obj_id : nat;
  obj_module : string;
  obj_name : string;
  obj_sort : callable_sort;
  parameters : list (string * ParameterKind)
}.

(** A bucket of the registry: name to callable. *)
Abbreviation bucket := (gmap string callable).

(** ** Exceptions *)

Inductive exception_type : Type :=
  | AssertionError
  | LookupError
  | KeyError
  | ValueError
  | TypeError.

(** A raised Python exception as a handler sees it: class and argument. *)
Record exception : Type := Exception {
  exc_type : exception_type;
  exc_arg : value
}.

(** The places where the module raises, one constructor per place. *)
Inductive error : Type :=
  | ReservedKindError
      (* load: assert kind != "class_map" *)
  | DuplicateRegistrationError (name : string)
      (* decorator: raise LookupError(f'{name} already present') *)
  | MissingNameFieldError
      (* lookup: name['name'] on a mapping without that key *)
  | UnknownKindError (kind : string)
      (* lookup: raise KeyError(f'Nothing registered under "{kind}"') *)
  | UnknownNameError (name : value)
      (* lookup: LOOKUP_DICT[kind][name] on a bucket without that name *)
  | UnsupportedParameterKindError (name : string) (kind : ParameterKind)
      (* instantiate: raise ValueError(f'Unsupported kind for param ...') *)
  | DictKeyError (key : string)
      (* instantiate: merged[key] or merged.pop(key) on a missing key *)
  | PreconditionError
      (* register_class_ref: assert issubclass(class_ref, Registrable) *)
  | NotAClassError
      (* register_class_ref: issubclass() on something that is no class *)
  | UnknownClassError (class_name : string)
      (* lookup_class_ref: raise KeyError(f'No class found for ...') *)
  | MultipleValuesError (name : string)
      (* construct: the call of instantiate with an override named after
         one of the parameters it fills by position *)
  | Propagated (e : exception)
      (* raised by the callable that instantiate calls *).

(** The double quote character, for the f-strings that print one. *)
Definition dquote : string := String (Ascii.ascii_of_nat 34) EmptyString.

Definition kind_name (k : ParameterKind) : string :=
  match k with
  | POSITIONAL_ONLY => "POSITIONAL_ONLY"
  | POSITIONAL_OR_KEYWORD => "POSITIONAL_OR_KEYWORD"
  | VAR_POSITIONAL => "VAR_POSITIONAL"
  | KEYWORD_ONLY => "KEYWORD_ONLY"
  | VAR_KEYWORD => "VAR_KEYWORD"
  end.

(** f'Nothing registered under "{kind}"' *)
Definition nothing_registered (kind : string) : string :=
  "Nothing registered under " +:+ dquote +:+ kind +:+ dquote.

(** The exception object each raise produces. *)
Definition exception_of (e : error) : exception :=
  match e with
  | ReservedKindError =>
      Exception AssertionError
        (VStr ("reserved keyword for kind " +:+ dquote +:+ "class_map" +:+ dquote))
  | DuplicateRegistrationError name =>
      Exception LookupError (VStr (name +:+ " already present"))
  | MissingNameFieldError => Exception KeyError (VStr "name")
  | UnknownKindError kind => Exception KeyError (VStr (nothing_registered kind))
  | UnknownNameError name => Exception KeyError name
  | UnsupportedParameterKindError name k =>
      Exception ValueError
        (VStr ("Unsupported kind for param " +:+ name +:+ ": " +:+ kind_name k))
  | DictKeyError key => Exception KeyError (VStr key)
  | PreconditionError =>
      Exception AssertionError
        (VStr "Annotated class must be a subclass of Registrable")
  | NotAClassError => Exception TypeError (VStr "issubclass() arg 1 must be a class")
  | UnknownClassError class_name =>
      Exception KeyError
        (VStr ("No class found for " +:+ dquote +:+ class_name +:+ dquote))
  | MultipleValuesError name =>
      Exception TypeError
        (VStr ("instantiate() got multiple values for argument '" +:+ name +:+ "'"))
  | Propagated e => e
  end.

(** ** The world and its monad *)

(** [LOOKUP_DICT] is the module global; [heap] holds the dict objects that
    callers pass in or that the module allocates; [stderr] collects the
    warning lines printed (callable and [missing] dict of each); [calls]
    logs every invocation of a registered callable with its keyword
    arguments. *)
Record world : Type := World {
  LOOKUP_DICT : gmap string bucket;
  heap : gmap loc dict;
  stderr : list (callable * dict);
  calls : list (callable * dict)
}.

Definition result (A : Type) : Type := error + A.

(** A computation returns a value or raises, and leaves a world either way:
    a Python exception does not undo the writes made before it. *)
Definition M (A : Type) : Type := world → result A * world.

Definition ret {A} (a : A) : M A := λ w, (inr a, w).
Definition raise {A} (e : error) : M A := λ w, (inl e, w).
Definition bind {A B} (m : M A) (k : A → M B) : M B :=
  λ w, match m w with
       | (inl e, w') => (inl e, w')
       | (inr a, w') => k a w'
       end.

Notation "'do' x <- m ; k" := (bind m (λ x, k))
  (at level 10, x name, m at level 100, k at level 200).
Notation "m ;; k" := (bind m (λ _, k))
  (at level 100, k at level 200, right associativity).

Definition get_store : M (gmap string bucket) := λ w, (inr (LOOKUP_DICT w), w).
Definition set_store (s : gmap string bucket) : M unit :=
  λ w, (inr tt, World s (heap w) (stderr w) (calls w)).
Definition get_heap : M (gmap loc dict) := λ w, (inr (heap w), w).
Definition set_heap (h : gmap loc dict) : M unit :=
  λ w, (inr tt, World (LOOKUP_DICT w) h (stderr w) (calls w)).

(** ** The registry store *)

Definition class_map : string := "class_map".

(** [LOOKUP_DICT[kind]] on the defaultdict: a missing kind gets a new empty
    bucket, which stays in the store. *)
Definition defaultdict_getitem (kind : string) : M bucket :=
  do s <- get_store;
  match s !! kind with
  | Some b => ret b
  | None => set_store (<[kind := ∅]> s) ;; ret ∅
  end.

(** [LOOKUP_DICT[kind][name] = obj], through the bucket object the store
    holds for [kind]. *)
Definition bucket_setitem (kind name : string) (obj : callable) : M unit :=
  do b <- defaultdict_getitem kind;
  do s <- get_store;
  set_store (<[kind := <[name := obj]> b]> s).

(** f"{obj.__module__}.{obj.__name__}" *)
Definition qualified_name (obj : callable) : string :=
  obj_module obj +:+ "." +:+ obj_name obj.

(** The closure [load] returns.  It captures [name] and the two bucket
    objects [registry = LOOKUP_DICT[kind]] and
    [class_ref = LOOKUP_DICT["class_map"]].  No function of the module ever
    rebinds or deletes a key of [LOOKUP_DICT], so the captured objects are
    the buckets the store holds under [kind] and "class_map" for good, and
    the closure is represented by the two keys. *)
Record decorator_closure : Type := Decorator {
  dec_kind : string;
  dec_name : string
}.

(** [load(kind, name)]: the assert, then the two reads of the defaultdict,
    each of which creates the bucket it does not find. *)
Definition load (kind name : string) : M decorator_closure :=
  (if decide (kind = class_map) then raise ReservedKindError else ret tt) ;;
  defaultdict_getitem kind ;;
  defaultdict_getitem class_map ;;
  ret (Decorator kind name).

(** [decorator(obj)].  The captured buckets are reached through their
    keys; for a closure that [load] made they exist, so that these reads
    create nothing. *)
Definition decorator (d : decorator_closure) (obj : callable) : M callable :=
  do registry <- defaultdict_getitem (dec_kind d);
  match registry !! dec_name d with
  | Some _ => raise (DuplicateRegistrationError (dec_name d))
  | None =>
      bucket_setitem (dec_kind d) (dec_name d) obj ;;
      bucket_setitem class_map (qualified_name obj) obj ;;
      ret obj
  end.

(** [@load(kind, name)] in front of a definition of [obj]. *)
Definition register (kind name : string) (obj : callable) : M callable :=
  do d <- load kind name;
  decorator d obj.

(** The [name] argument of [lookup] and the [config] argument of
    [construct]: a str, or a mapping (a dict object in the heap). *)
Inductive str_or_mapping : Type :=
  | Str (s : string)
  | Mapping (l : loc).

(** Reading the dict object at an address. *)
Definition deref (l : loc) : M dict :=
  do h <- get_heap; ret (h !!! l).

(** [bucket[name]] for a key that may be any hashable value: the keys of a
    bucket are strs, and no other value equals a str. *)
Definition bucket_getitem (b : bucket) (name : value) : M callable :=
  match name with
  | VStr s => match b !! s with
              | Some obj => ret obj
              | None => raise (UnknownNameError name)
              end
  | _ => raise (UnknownNameError name)
  end.

(** [lookup(kind, name)]: a mapping is replaced by its "name" field, the
    kind is tested with [in], which creates no bucket, and the bucket is
    subscripted with the name. *)
Definition lookup (kind : string) (name : str_or_mapping) : M callable :=
  do name <- match name with
             | Mapping l =>
                 do m <- deref l;
                 match m !! "name" with
                 | Some v => ret v
                 | None => raise MissingNameFieldError
                 end
             | Str s => ret (VStr s)
             end;
  do s <- get_store;
  match s !! kind with
  | None => raise (UnknownKindError kind)
  | Some b => bucket_getitem b name
  end.

(** ** Registrable *)

(** [cls.type_name()] *)
Definition type_name (cls : callable) : string :=
  obj_module cls +:+ "." +:+ obj_name cls.

(** [issubclass(class_ref, Registrable)] *)
Definition issubclass_Registrable (class_ref : callable) : M bool :=
  match obj_sort class_ref with
  | Function => raise NotAClassError
  | Class b => ret b
  end.

(** [Registrable.register_class_ref(class_ref, name=None)] *)
Definition register_class_ref (class_ref : callable) (name : option string)
  : M callable :=
  do name <- match name with
             | None =>
                 do ok <- issubclass_Registrable class_ref;
                 (if ok then ret tt else raise PreconditionError) ;;
                 ret (type_name class_ref)
             | Some n => ret n
             end;
  bucket_setitem class_map name class_ref ;;
  ret class_ref.

(** [Registrable.lookup_class_ref(class_name)]: both subscripts of
    [LOOKUP_DICT] go through the defaultdict. *)
Definition lookup_class_ref (class_name : string) : M callable :=
  do b <- defaultdict_getitem class_map;
  match b !! class_name with
  | None => raise (UnknownClassError class_name)
  | Some _ =>
      do b' <- defaultdict_getitem class_map;
      match b' !! class_name with
      | Some obj => ret obj
      | None => raise (DictKeyError class_name)
      end
  end.

(** What [get_name] may be given: a function or class, or an instance of a
    class, which is itself callable when its class defines [__call__]. *)
Inductive pyobject : Type :=
  | ACallable (c : callable)
  | AnInstance (cls : callable) (has_call : bool).

(** [callable(obj)] *)
Definition is_callable (obj : pyobject) : bool :=
  match obj with
  | ACallable _ => true
  | AnInstance _ has_call => has_call
  end.

(** [Registrable.get_name(obj)]: an object that is not callable is replaced
    by its class.  A callable instance is kept, and has no [__name__] of
    its own: the f-string raises AttributeError, rendered as [None]. *)
Definition get_name (obj : pyobject) : option string :=
  match obj with
  | ACallable c => Some (obj_module c +:+ "." +:+ obj_name c)
  | AnInstance cls has_call =>
      if is_callable (AnInstance cls has_call) then None
      else Some (obj_module cls +:+ "." +:+ obj_name cls)
  end.

(** ** instantiate and construct *)

(** [{**config, **kwargs}]: the keys of both, [kwargs] winning on a key of
    both ([∪] on gmaps prefers its left operand). *)
Definition merge_dicts (config kwargs : dict) : dict := kwargs ∪ config.

(** A new dict object; its address is not the address of any live one. *)
Definition alloc (d : dict) : M loc :=
  do h <- get_heap;
  let l := fresh (dom h) in
  set_heap (<[l := d]> h) ;; ret l.

(** [d[key]] *)
Definition dict_getitem (l : loc) (key : string) : M value :=
  do d <- deref l;
  match d !! key with
  | Some v => ret v
  | None => raise (DictKeyError key)
  end.

(** [d.pop(key)]: removes the key from the dict object in place. *)
Definition dict_pop (l : loc) (key : string) : M value :=
  do h <- get_heap;
  match (h !!! l : dict) !! key with
  | Some v => set_heap (<[l := delete key (h !!! l)]> h) ;; ret v
  | None => raise (DictKeyError key)
  end.

(** [list(d.keys())] *)
Definition dict_keys (l : loc) : M (list string) :=
  do d <- deref l; ret (map_to_list d).*1.

(** The first loop of [instantiate]: the first parameter, in declaration
    order, whose kind is POSITIONAL_ONLY or VAR_POSITIONAL raises. *)
Fixpoint check_parameters (ps : list (string * ParameterKind)) : M unit :=
  match ps with
  | [] => ret tt
  | (name, k) :: ps' =>
      match k with
      | POSITIONAL_ONLY | VAR_POSITIONAL =>
          raise (UnsupportedParameterKindError name k)
      | _ => check_parameters ps'
      end
  end.

(** [any(param.kind == VAR_KEYWORD for param in parameters.values())] *)
Definition has_var_keyword (ps : list (string * ParameterKind)) : bool :=
  existsb (λ p, bool_decide (p.2 = VAR_KEYWORD)) ps.

(** [key in signature.parameters] *)
Definition in_parameters (key : string) (ps : list (string * ParameterKind)) : bool :=
  bool_decide (key ∈ ps.*1).

(** The second loop of [instantiate], over a snapshot [keys] of the keys of
    [merged]; [missing] is the local dict of flagged entries. *)
Fixpoint filter_loop (ps : list (string * ParameterKind))
    (unused_keys : list string) (merged : loc)
    (keys : list string) (missing : dict) : M dict :=
  match keys with
  | [] => ret missing
  | key :: keys' =>
      if in_parameters key ps then
        filter_loop ps unused_keys merged keys' missing
      else
        do missing' <-
          (if bool_decide (key ∈ unused_keys) then ret missing
           else do v <- dict_getitem merged key; ret (<[key := v]> missing));
        dict_pop merged key ;;
        filter_loop ps unused_keys merged keys' missing'
  end.

(** [print(f'WARNING {callable}: superfluous {missing}', file=sys.stderr)] *)
Definition print_warning (c : callable) (missing : dict) : M unit :=
  λ w, (inr tt, World (LOOKUP_DICT w) (heap w) (stderr w ++ [(c, missing)]) (calls w)).

(** The parameters of [instantiate] that [construct] fills by position. *)
Definition instantiate_positional : list string :=
  ["callable"; "config"; "unused_keys"].

(** The call [instantiate(f, config, unused, **kwargs)] of [construct]
    binds its first three parameters by position.  A key of [kwargs] that
    names one of them makes the call itself raise TypeError (multiple
    values for the argument), before the body of [instantiate] runs.  Of
    the three names, "config" and "unused_keys" are parameters of
    [construct] as well. *)
Definition colliding_override (kwargs : dict) : option string :=
  List.find (λ name, bool_decide (is_Some (kwargs !! name))) instantiate_positional.

Section Instantiator.

(** The objects that calling a registered callable yields, and what each
    callable does with its keyword arguments: it returns an instance or
    raises.  The callables are taken not to touch the registry or the
    caller's dicts themselves. *)
Context {instance : Type}.
Variable apply_callable : callable → dict → exception + instance.

(** [callable] applied to the unpacked dict [kwargs] *)
Definition call (c : callable) (kwargs : loc) : M instance :=
  do args <- deref kwargs;
  λ w,
    let w' := World (LOOKUP_DICT w) (heap w) (stderr w) (calls w ++ [(c, args)]) in
    match apply_callable c args with
    | inl e => (inl (Propagated e), w')
    | inr i => (inr i, w')
    end.

(** [instantiate(callable, config, unused_keys, **kwargs)]: the merge
    into a new dict, the check of the parameter kinds, the early call for
    a catch-all, and else the pop loop, the warning and the call. *)
Definition instantiate (c : callable) (config : loc)
    (unused_keys : list string) (kwargs : dict) : M instance :=
  do cfg <- deref config;
  do merged <- alloc (merge_dicts cfg kwargs);
  check_parameters (parameters c) ;;
  if has_var_keyword (parameters c) then call c merged
  else
    do keys <- dict_keys merged;
    do missing <- filter_loop (parameters c) unused_keys merged keys ∅;
    (if decide (missing = ∅) then ret tt else print_warning c missing) ;;
    call c merged.

(** [construct(kind, config, unused_keys, **kwargs)]: a str config is
    wrapped into a new dict; the arguments of the call of [instantiate]
    are evaluated, [lookup] first; then the call is made, with
    [unused_keys + ('name',)], unless an override collides with a
    parameter bound by position. *)
Definition construct (kind : string) (config : str_or_mapping)
    (unused_keys : list string) (kwargs : dict) : M instance :=
  do config <- match config with
               | Str s => alloc {[ "name" := VStr s ]}
               | Mapping l => ret l
               end;
  do c <- lookup kind (Mapping config);
  match colliding_override kwargs with
  | Some name => raise (MultipleValuesError name)
  | None => instantiate c config (unused_keys ++ ["name"]) kwargs
  end.

End Instantiator.

(** ** Vocabulary for the statements *)

(** The world with another store. *)
Definition with_store (s : gmap string bucket) (w : world) : world :=
  World s (heap w) (stderr w) (calls w).

(** The world with another heap. *)
Definition with_heap (h : gmap loc dict) (w : world) : world :=
  World (LOOKUP_DICT w) h (stderr w) (calls w).

(** The store after a read of [LOOKUP_DICT[kind]]. *)
Definition ensure (kind : string) (s : gmap string bucket) : gmap string bucket :=
  match s !! kind with
  | Some _ => s
  | None => <[kind := ∅]> s
  end.

(** The bucket of a kind, empty when the store has none. *)
Definition bucket_of (s : gmap string bucket) (kind : string) : bucket :=
  default ∅ (s !! kind).

(** The store after [LOOKUP_DICT[kind][name] = obj]. *)
Definition store_setitem (kind name : string) (obj : callable)
    (s : gmap string bucket) : gmap string bucket :=
  <[kind := <[name := obj]> (bucket_of s kind)]> s.

(** The callable stored under [(kind, name)], if any. *)
Definition entry (w : world) (kind name : string) : option callable :=
  bucket_of (LOOKUP_DICT w) kind !! name.

(** Every entry of [w] is still there, with the same callable, in [w']. *)
Definition entries_kept (w w' : world) : Prop :=
  ∀ kind name obj, entry w kind name = Some obj → entry w' kind name = Some obj.

(** The three ways the module writes into the store: the decorator of
    [load] (which writes the bucket of [kind] and the class map) and
    [Registrable.register_class_ref]. *)
Inductive write_op : Type :=
  | Register (kind name : string) (obj : callable)
  | RegisterClassRef (class_ref : callable) (name : option string).

Definition run_op (op : write_op) : M callable :=
  match op with
  | Register kind name obj => register kind name obj
  | RegisterClassRef class_ref name => register_class_ref class_ref name
  end.

(** A sequence of registrations; one that raises leaves its world to the
    next (the caller may catch the exception and go on). *)
Fixpoint run_ops (ops : list write_op) (w : world) : world :=
  match ops with
  | [] => w
  | op :: ops' => run_ops ops' (run_op op w).2
  end.

(** The first parameter that the check of [instantiate] rejects. *)
Fixpoint first_unsupported (ps : list (string * ParameterKind))
  : option (string * ParameterKind) :=
  match ps with
  | [] => None
  | (name, k) :: ps' =>
      match k with
      | POSITIONAL_ONLY | VAR_POSITIONAL => Some (name, k)
      | _ => first_unsupported ps'
      end
  end.

(** The calls logged between [w] and [w']. *)
Definition new_calls (w w' : world) : list (callable * dict) :=
  drop (length (calls w)) (calls w').

(** The warnings printed between [w] and [w']. *)
Definition new_warnings (w w' : world) : list (callable * dict) :=
  drop (length (stderr w)) (stderr w').


(** The entries of [merged] that the callable declares. *)
Definition recognized (ps : list (string * ParameterKind)) (merged : dict) : dict :=
  filter (λ kv, kv.1 ∈ ps.*1) merged.

(** The entries of [merged] that the callable does not declare and that
    [unused_keys] does not list. *)
Definition superfluous (ps : list (string * ParameterKind))
    (unused_keys : list string) (merged : dict) : dict :=
  filter (λ kv, ¬ (kv.1 ∈ ps.*1) ∧ ¬ (kv.1 ∈ unused_keys)) merged.

(** What the caller of [instantiate] gets from the call of the callable:
    its instance, or the exception it raised, unchanged. *)
Definition called {instance : Type}
    (apply_callable : callable → dict → exception + instance)
    (c : callable) (args : dict) : result instance :=
  match apply_callable c args with
  | inl e => inl (Propagated e)
  | inr i => inr i
  end.

(** The address [instantiate] allocates [merged] at. *)
Definition merged_loc (w : world) : loc := fresh (dom (heap w)).



(** ** Examples used below *)

Definition w_init : world := World ∅ ∅ [] [].

(** A class with parameters [(a, b)]. *)
Definition Net : callable :=
  Callable 1 "models" "Net" (Class true)
    [("a", POSITIONAL_OR_KEYWORD); ("b", POSITIONAL_OR_KEYWORD)].

(** Another class that has the same module and name as [Net]. *)
Definition Net2 : callable :=
  Callable 2 "models" "Net" (Class false) [("a", POSITIONAL_OR_KEYWORD)].

(** A class with a catch-all keyword parameter. *)
Definition Any : callable :=
  Callable 3 "models" "Any" (Class false) [("kwargs", VAR_KEYWORD)].

(** A function with a positional-only parameter. *)
Definition PosOnly : callable :=
  Callable 4 "models" "pos_only" Function
    [("x", POSITIONAL_ONLY); ("a", POSITIONAL_OR_KEYWORD)].

(** A callable that returns its keyword arguments. *)
Definition returns_kwargs (c : callable) (kwargs : dict) : exception + dict :=
  inr kwargs.

Definition cfg_abc : dict :=
  {[ "name" := VStr "net"; "a" := VInt 1; "b" := VInt 2; "c" := VInt 3 ]}.

(** The world after [@load("model", "net")] in front of [Net]. *)
Definition w_reg : world := (register "model" "net" Net w_init).2.

(** The world after a bare [load("model", "net")], its decorator unused. *)
Definition w_loaded : world := (load "model" "net" w_init).2.

(** The registry of [w_reg] and a live config dict at address 1. *)
Definition w_reg_cfg : world :=
  World (LOOKUP_DICT w_reg) {[ 1%positive := cfg_abc ]} [] [].



(** A world with one live config dict at address 1. *)
Definition w_cfg : world := World ∅ {[ 1%positive := cfg_abc ]} [] [].

(** The store after a registration that succeeds. *)
Definition registered_store (kind name : string) (obj : callable)
    (s : gmap string bucket) : gmap string bucket :=
  store_setitem class_map (qualified_name obj) obj
    (store_setitem kind name obj (ensure class_map (ensure kind s))).

(** A function, which is no class. *)
Definition make_net : callable :=
  Callable 5 "models" "make_net" Function [("a", KEYWORD_ONLY)].

(** A callable whose second parameter is the first unsupported one. *)
Definition VarPos : callable :=
  Callable 6 "models" "var_pos" Function
    [("a", POSITIONAL_OR_KEYWORD); ("args", VAR_POSITIONAL); ("x", POSITIONAL_ONLY)].

(** A world whose config dict at address 1 is just a name. *)
Definition w_reg_name : world :=
  World (LOOKUP_DICT w_reg) {[ 1%positive := {[ "name" := VStr "net" ]} ]} [] [].

(** A world whose config dict at address 1 has no name. *)
Definition w_reg_noname : world :=
  World (LOOKUP_DICT w_reg) {[ 1%positive := {[ "a" := VInt 1 ]} ]} [] [].

(** ** Equations of the store operations *)

Ltac unfold_M :=
  unfold bind, ret, raise, get_store, set_store, get_heap, set_heap,
    with_store, with_heap in *.

Lemma with_store_id (w : world) : with_store (LOOKUP_DICT w) w = w.
Proof. by destruct w. Qed.

Lemma with_heap_id (w : world) : with_heap (heap w) w = w.
Proof. by destruct w. Qed.

Lemma ensure_lookup (kind k : string) (s : gmap string bucket) :
  ensure kind s !! k = if decide (k = kind) then Some (bucket_of s kind) else s !! k.
Proof.
  unfold ensure, bucket_of. case_decide as Hk.
  - subst k. destruct (s !! kind) eqn:E; simpl; [done | by rewrite lookup_insert_eq].
  - destruct (s !! kind) eqn:E; [done | by rewrite lookup_insert_ne].
Qed.

Lemma bucket_of_ensure (kind k : string) (s : gmap string bucket) :
  bucket_of (ensure kind s) k = bucket_of s k.
Proof.
  unfold bucket_of at 1. rewrite ensure_lookup. by case_decide; subst.
Qed.

Lemma ensure_present (kind : string) (s : gmap string bucket) (b : bucket) :
  s !! kind = Some b → ensure kind s = s.
Proof. unfold ensure. by intros ->. Qed.

Lemma insert_ensure (kind : string) (b : bucket) (s : gmap string bucket) :
  <[kind := b]> (ensure kind s) = <[kind := b]> s.
Proof.
  unfold ensure. destruct (s !! kind); [done | by rewrite insert_insert_eq].
Qed.

Lemma bucket_of_setitem (kind name k : string) (obj : callable)
    (s : gmap string bucket) :
  bucket_of (store_setitem kind name obj s) k =
  if decide (k = kind) then <[name := obj]> (bucket_of s kind) else bucket_of s k.
Proof.
  unfold store_setitem, bucket_of at 1. case_decide as Hk.
  - subst. by rewrite lookup_insert_eq.
  - by rewrite lookup_insert_ne.
Qed.

Lemma defaultdict_getitem_eq (kind : string) (w : world) :
  defaultdict_getitem kind w =
  (inr (bucket_of (LOOKUP_DICT w) kind), with_store (ensure kind (LOOKUP_DICT w)) w).
Proof.
  unfold defaultdict_getitem, ensure, bucket_of. unfold_M.
  destruct (LOOKUP_DICT w !! kind); simpl; by destruct w.
Qed.

Lemma bucket_setitem_eq (kind name : string) (obj : callable) (w : world) :
  bucket_setitem kind name obj w =
  (inr tt, with_store (store_setitem kind name obj (LOOKUP_DICT w)) w).
Proof.
  unfold bucket_setitem. unfold bind at 1. rewrite defaultdict_getitem_eq.
  unfold_M. simpl. by rewrite insert_ensure.
Qed.

Lemma load_eq (kind name : string) (w : world) :
  load kind name w =
  if decide (kind = class_map) then (inl ReservedKindError, w)
  else (inr (Decorator kind name),
        with_store (ensure class_map (ensure kind (LOOKUP_DICT w))) w).
Proof.
  unfold load. case_decide; [done |].
  unfold bind at 1. unfold ret at 1. unfold bind at 1.
  rewrite defaultdict_getitem_eq. unfold bind at 1.
  by rewrite defaultdict_getitem_eq.
Qed.

Lemma decorator_eq (d : decorator_closure) (obj : callable) (w : world) :
  decorator d obj w =
  match bucket_of (LOOKUP_DICT w) (dec_kind d) !! dec_name d with
  | Some _ =>
      (inl (DuplicateRegistrationError (dec_name d)),
       with_store (ensure (dec_kind d) (LOOKUP_DICT w)) w)
  | None =>
      (inr obj,
       with_store
         (store_setitem class_map (qualified_name obj) obj
            (store_setitem (dec_kind d) (dec_name d) obj (LOOKUP_DICT w))) w)
  end.
Proof.
  unfold decorator. unfold bind at 1. rewrite defaultdict_getitem_eq.
  destruct (bucket_of (LOOKUP_DICT w) (dec_kind d) !! dec_name d); [done |].
  unfold bind at 1. rewrite bucket_setitem_eq.
  unfold bind at 1. rewrite bucket_setitem_eq. simpl.
  unfold ret, with_store, store_setitem. simpl.
  rewrite bucket_of_ensure. by rewrite insert_ensure.
Qed.

Lemma register_eq (kind name : string) (obj : callable) (w : world) :
  register kind name obj w =
  if decide (kind = class_map) then (inl ReservedKindError, w)
  else
    let s := ensure class_map (ensure kind (LOOKUP_DICT w)) in
    match bucket_of (LOOKUP_DICT w) kind !! name with
    | Some _ => (inl (DuplicateRegistrationError name), with_store s w)
    | None =>
        (inr obj,
         with_store
           (store_setitem class_map (qualified_name obj) obj
              (store_setitem kind name obj s)) w)
    end.
Proof.
  unfold register. unfold bind. rewrite load_eq. case_decide as Hk; [done |].
  rewrite decorator_eq. simpl. rewrite !bucket_of_ensure.
  destruct (bucket_of (LOOKUP_DICT w) kind !! name) eqn:E; [| done].
  unfold with_store. simpl. f_equal. f_equal.
  apply (ensure_present _ _ (bucket_of (LOOKUP_DICT w) kind)).
  rewrite !ensure_lookup. case_decide; [congruence |]. by case_decide.
Qed.

(** [lookup] with a str: the store is read, never written. *)
Lemma lookup_str_eq (kind name : string) (w : world) :
  lookup kind (Str name) w =
  match LOOKUP_DICT w !! kind with
  | None => (inl (UnknownKindError kind), w)
  | Some b => match b !! name with
              | Some obj => (inr obj, w)
              | None => (inl (UnknownNameError (VStr name)), w)
              end
  end.
Proof.
  unfold lookup. unfold_M. simpl.
  destruct (LOOKUP_DICT w !! kind) as [b|]; [| done].
  simpl. by destruct (b !! name).
Qed.

(** [lookup] with a mapping: the effective name is its "name" field. *)
Lemma lookup_mapping_eq (kind : string) (l : loc) (w : world) :
  lookup kind (Mapping l) w =
  match (heap w !!! l : dict) !! "name" with
  | None => (inl MissingNameFieldError, w)
  | Some v =>
      match LOOKUP_DICT w !! kind with
      | None => (inl (UnknownKindError kind), w)
      | Some b => bucket_getitem b v w
      end
  end.
Proof.
  unfold lookup, deref. unfold_M. simpl.
  destruct ((heap w !!! l : dict) !! "name") as [v|]; [| done].
  by destruct (LOOKUP_DICT w !! kind).
Qed.

Lemma register_class_ref_named_eq (class_ref : callable) (name : string) (w : world) :
  register_class_ref class_ref (Some name) w =
  (inr class_ref,
   with_store (store_setitem class_map name class_ref (LOOKUP_DICT w)) w).
Proof.
  unfold register_class_ref. unfold bind at 1. unfold ret at 1.
  unfold bind at 1. by rewrite bucket_setitem_eq.
Qed.

Lemma register_class_ref_None_eq (class_ref : callable) (w : world) :
  register_class_ref class_ref None w =
  match obj_sort class_ref with
  | Function => (inl NotAClassError, w)
  | Class false => (inl PreconditionError, w)
  | Class true =>
      (inr class_ref,
       with_store
         (store_setitem class_map (type_name class_ref) class_ref (LOOKUP_DICT w)) w)
  end.
Proof.
  unfold register_class_ref, issubclass_Registrable.
  destruct (obj_sort class_ref) as [|[|]]; try done.
  cbv [bind ret]. by rewrite bucket_setitem_eq.
Qed.

Lemma lookup_class_ref_eq (class_name : string) (w : world) :
  lookup_class_ref class_name w =
  (match bucket_of (LOOKUP_DICT w) class_map !! class_name with
   | Some obj => inr obj
   | None => inl (UnknownClassError class_name)
   end,
   with_store (ensure class_map (LOOKUP_DICT w)) w).
Proof.
  unfold lookup_class_ref. unfold bind at 1. rewrite defaultdict_getitem_eq.
  destruct (bucket_of (LOOKUP_DICT w) class_map !! class_name) eqn:E; [| done].
  unfold bind at 1. rewrite defaultdict_getitem_eq. simpl.
  rewrite bucket_of_ensure, E. unfold ret, with_store. simpl.
  do 2 f_equal. apply (ensure_present _ _ (bucket_of (LOOKUP_DICT w) class_map)).
  rewrite ensure_lookup. by case_decide.
Qed.

(** ** Entries across the store operations *)

Lemma entry_with_store (s : gmap string bucket) (w : world) (kind name : string) :
  entry (with_store s w) kind name = bucket_of s kind !! name.
Proof. done. Qed.

Lemma entry_Some_bucket (w : world) (kind name : string) (obj : callable) :
  entry w kind name = Some obj →
  LOOKUP_DICT w !! kind = Some (bucket_of (LOOKUP_DICT w) kind).
Proof.
  unfold entry, bucket_of. destruct (LOOKUP_DICT w !! kind); [done |].
  simpl. by rewrite lookup_empty.
Qed.

Lemma entry_register (kind name : string) (obj : callable) (w : world)
    (k n : string) :
  k ≠ class_map →
  entry (register kind name obj w).2 k n =
  if decide (kind ≠ class_map ∧ k = kind ∧ n = name ∧ entry w kind name = None)
  then Some obj else entry w k n.
Proof.
  intros Hk. rewrite register_eq. unfold entry.
  destruct (decide (kind = class_map)) as [->|Hkind]; simpl.
  { done. }
  destruct (bucket_of (LOOKUP_DICT w) kind !! name) eqn:E; simpl.
  - rewrite !bucket_of_ensure.
    rewrite decide_False; [done | intros (_ & _ & _ & ?); congruence].
  - rewrite !bucket_of_setitem, !bucket_of_ensure.
    rewrite (decide_False (P := k = class_map)) by done.
    destruct (decide (k = kind)) as [->|Hne].
    + destruct (decide (n = name)) as [->|Hn].
      * rewrite lookup_insert_eq. by rewrite decide_True.
      * rewrite lookup_insert_ne by done.
        rewrite decide_False; [done | intros (_ & _ & ? & _); congruence].
    + rewrite decide_False; [done | intros (_ & ? & _); congruence].
Qed.

Lemma entry_register_class_ref (class_ref : callable) (name : option string)
    (w : world) (k n : string) :
  k ≠ class_map →
  entry (register_class_ref class_ref name w).2 k n = entry w k n.
Proof.
  intros Hk. destruct name as [name|].
  - rewrite register_class_ref_named_eq. simpl.
    rewrite entry_with_store, bucket_of_setitem. by rewrite decide_False.
  - rewrite register_class_ref_None_eq.
    destruct (obj_sort class_ref) as [|[|]]; try done. simpl.
    rewrite entry_with_store, bucket_of_setitem. by rewrite decide_False.
Qed.

Lemma run_op_keeps (op : write_op) (w : world) (kind name : string) (obj : callable) :
  kind ≠ class_map →
  entry w kind name = Some obj →
  entry (run_op op w).2 kind name = Some obj.
Proof.
  intros Hk He. destruct op as [k n o | c n]; simpl.
  - rewrite entry_register by done. case_decide as Hd; [| done].
    destruct Hd as (_ & -> & -> & Hnone). congruence.
  - by rewrite entry_register_class_ref.
Qed.

(** ** Equations of the dict operations *)

(** A filtered dict, read at one key. *)
Lemma lookup_filter_dec (Q : string * value → Prop) `{!∀ kv, Decision (Q kv)}
    (d : dict) (k : string) :
  filter Q d !! k =
  match d !! k with
  | Some v => if decide (Q (k, v)) then Some v else None
  | None => None
  end.
Proof.
  apply option_eq. intros x. rewrite map_lookup_filter_Some.
  destruct (d !! k) as [v|]; [| by intuition].
  case_decide; split; try (intros [[= ->] ?]); try (intros [= ->]); done.
Qed.

Lemma merge_dicts_lookup (config kwargs : dict) (key : string) :
  merge_dicts config kwargs !! key =
  match kwargs !! key with
  | Some v => Some v
  | None => config !! key
  end.
Proof.
  unfold merge_dicts. rewrite lookup_union.
  destruct (kwargs !! key), (config !! key); done.
Qed.

Lemma alloc_eq (d : dict) (w : world) :
  alloc d w =
  (inr (fresh (dom (heap w))),
   with_heap (<[fresh (dom (heap w)) := d]> (heap w)) w).
Proof. done. Qed.

Lemma fresh_not_live (w : world) (l : loc) (d : dict) :
  heap w !! l = Some d → l ≠ fresh (dom (heap w)).
Proof.
  intros Hl ->. apply (is_fresh (dom (heap w))). apply elem_of_dom. eauto.
Qed.

Lemma check_parameters_eq (ps : list (string * ParameterKind)) (w : world) :
  check_parameters ps w =
  (match first_unsupported ps with
   | Some (name, k) => inl (UnsupportedParameterKindError name k)
   | None => inr tt
   end, w).
Proof.
  induction ps as [|[name k] ps IH]; [done |].
  destruct k; simpl; done.
Qed.

Lemma first_unsupported_Some (ps : list (string * ParameterKind))
    (name : string) (k : ParameterKind) :
  first_unsupported ps = Some (name, k) →
  (name, k) ∈ ps ∧ (k = POSITIONAL_ONLY ∨ k = VAR_POSITIONAL).
Proof.
  induction ps as [|[n k'] ps IH]; [done |].
  destruct k'; simpl; intros H;
    try (destruct (IH H) as [? ?]; split; [by right | done]);
    injection H as <- <-; (split; [by left | auto]).
Qed.

Lemma first_unsupported_None (ps : list (string * ParameterKind)) :
  first_unsupported ps = None ↔
  ∀ name k, (name, k) ∈ ps → k ≠ POSITIONAL_ONLY ∧ k ≠ VAR_POSITIONAL.
Proof.
  induction ps as [|[n k'] ps IH].
  - split; [| done]. intros _ name k Hin. by apply elem_of_nil in Hin.
  - split.
    + intros H name k Hin. apply elem_of_cons in Hin as [[= -> ->]|Hin].
      * by destruct k'.
      * apply (proj1 IH) with name; [| done]. by destruct k'.
    + intros H. assert ((n, k') ∈ (n, k') :: ps) as Hhd by left.
      destruct (H n k' Hhd) as [? ?].
      assert (first_unsupported ps = None) as Hps.
      { apply (proj2 IH). intros name k Hin. apply (H name). by right. }
      by destruct k'.
Qed.

Lemma has_var_keyword_true (ps : list (string * ParameterKind)) :
  has_var_keyword ps = true ↔ ∃ name, (name, VAR_KEYWORD) ∈ ps.
Proof.
  unfold has_var_keyword. rewrite existsb_exists. split.
  - intros ([name k] & Hin & Hk). apply bool_decide_eq_true in Hk.
    simpl in Hk. subst k. exists name. by apply list_elem_of_In.
  - intros (name & Hin). exists (name, VAR_KEYWORD). split.
    + by apply list_elem_of_In.
    + by apply bool_decide_eq_true.
Qed.

Lemma deref_eq (l : loc) (d : dict) (w : world) :
  heap w !! l = Some d → deref l w = (inr d, w).
Proof.
  intros Hl. unfold deref. unfold_M. by rewrite (lookup_total_correct _ _ _ Hl).
Qed.

Lemma dict_getitem_eq (l : loc) (d : dict) (key : string) (v : value) (w : world) :
  heap w !! l = Some d → d !! key = Some v →
  dict_getitem l key w = (inr v, w).
Proof.
  intros Hl Hk. unfold dict_getitem. unfold bind. rewrite (deref_eq _ _ _ Hl).
  by rewrite Hk.
Qed.

Lemma dict_pop_eq (l : loc) (d : dict) (key : string) (v : value) (w : world) :
  heap w !! l = Some d → d !! key = Some v →
  dict_pop l key w = (inr v, with_heap (<[l := delete key d]> (heap w)) w).
Proof.
  intros Hl Hk. unfold dict_pop. unfold_M.
  rewrite (lookup_total_correct _ _ _ Hl). by rewrite Hk.
Qed.

Lemma dict_keys_eq (l : loc) (d : dict) (w : world) :
  heap w !! l = Some d → dict_keys l w = (inr (map_to_list d).*1, w).
Proof.
  intros Hl. unfold dict_keys. unfold bind. by rewrite (deref_eq _ _ _ Hl).
Qed.


(** Two dicts built from filters, unions, inserts and deletes are compared
    key by key. *)
Ltac dict_pointwise k :=
  apply map_eq; intros k;
  rewrite ?lookup_union, ?lookup_filter_dec, ?lookup_delete, ?lookup_insert,
    ?lookup_filter_dec;
  cbn [fst snd].

Ltac dict_cases :=
  repeat case_decide; subst;
  repeat match goal with
         | H : context [_ ∈ _ :: _] |- _ => rewrite elem_of_cons in H
         | H : context [_ ∈ []] |- _ => rewrite elem_of_nil in H
         end;
  unfold union, option_union, union_with, option_union_with;
  try done; try congruence; try (exfalso; tauto);
  try (exfalso; intuition congruence).

(** The second loop of [instantiate] over any duplicate-free list of keys
    of [merged]: it never raises, pops the listed keys that are no
    parameters, and flags those of them that [unused_keys] does not list. *)
Lemma filter_loop_eq (ps : list (string * ParameterKind)) (unused_keys : list string)
    (m : loc) (keys : list string) :
  ∀ (missing : dict) (w : world) (d : dict),
    heap w !! m = Some d →
    NoDup keys →
    (∀ k, k ∈ keys → is_Some (d !! k)) →
    filter_loop ps unused_keys m keys missing w =
    (inr (filter (λ kv : string * value,
                    kv.1 ∈ keys ∧ ¬ (kv.1 ∈ ps.*1) ∧ ¬ (kv.1 ∈ unused_keys)) d
          ∪ missing),
     with_heap
       (<[m := filter (λ kv : string * value,
                         ¬ (kv.1 ∈ keys ∧ ¬ (kv.1 ∈ ps.*1))) d]> (heap w)) w).
Proof.
  induction keys as [|key keys IH]; intros missing w d Hm Hnd Hall.
  - cbn [filter_loop]. unfold ret. f_equal.
    + f_equal. dict_pointwise k.
      destruct (d !! k), (missing !! k); dict_cases.
    + rewrite <- (with_heap_id w) at 1. f_equal. symmetry.
      apply insert_id. rewrite Hm. f_equal. dict_pointwise k.
      destruct (d !! k); dict_cases.
  - apply NoDup_cons in Hnd as [Hkey Hnd].
    cbn [filter_loop]. unfold in_parameters.
    destruct (bool_decide (key ∈ ps.*1)) eqn:Hp.
    + apply bool_decide_eq_true in Hp.
      rewrite (IH missing w d Hm Hnd) by (intros k Hk; apply Hall; by right).
      f_equal; [f_equal | f_equal; f_equal]; dict_pointwise k.
      * destruct (d !! k), (missing !! k); dict_cases.
      * destruct (d !! k); dict_cases.
    + apply bool_decide_eq_false in Hp.
      destruct (Hall key) as [v Hv]; [by left |].
      assert (∀ k, k ∈ keys → is_Some (delete key d !! k)) as Hall'.
      { intros k Hk. rewrite lookup_delete_ne by (intros ->; done).
        apply Hall. by right. }
      pose (w1 := with_heap (<[m := delete key d]> (heap w)) w).
      assert (heap w1 !! m = Some (delete key d)) as Hm1
        by apply lookup_insert_eq.
      clear Hall.
      unfold bind at 1.
      destruct (bool_decide (key ∈ unused_keys)) eqn:Hu.
      * apply bool_decide_eq_true in Hu. unfold ret at 1.
        unfold bind at 1. rewrite (dict_pop_eq _ _ _ _ _ Hm Hv).
        fold w1. rewrite (IH missing w1 _ Hm1 Hnd Hall').
        unfold w1, with_heap. cbn [heap LOOKUP_DICT stderr calls].
        rewrite insert_insert_eq.
        f_equal; [f_equal | f_equal; f_equal]; dict_pointwise k.
        -- destruct (d !! k) eqn:Hdk, (missing !! k); dict_cases.
        -- destruct (d !! k) eqn:Hdk; dict_cases.
      * apply bool_decide_eq_false in Hu.
        unfold bind at 1. rewrite (dict_getitem_eq _ _ _ _ _ Hm Hv).
        unfold ret at 1. unfold bind at 1. rewrite (dict_pop_eq _ _ _ _ _ Hm Hv).
        fold w1. rewrite (IH (<[key := v]> missing) w1 _ Hm1 Hnd Hall').
        unfold w1, with_heap. cbn [heap LOOKUP_DICT stderr calls].
        rewrite insert_insert_eq.
        f_equal; [f_equal | f_equal; f_equal]; dict_pointwise k.
        -- destruct (d !! k) eqn:Hdk, (missing !! k); dict_cases.
        -- destruct (d !! k) eqn:Hdk; dict_cases.
Qed.

Lemma elem_of_keys (d : dict) (k : string) :
  k ∈ (map_to_list d).*1 ↔ is_Some (d !! k).
Proof.
  rewrite list_elem_of_fmap. split.
  - intros ([k' v] & -> & Hin). apply elem_of_map_to_list in Hin. by exists v.
  - intros [v Hv]. exists (k, v). split; [done |]. by apply elem_of_map_to_list.
Qed.

(** ** Equations of [instantiate] and [construct] *)

Section InstantiatorFacts.

Context {instance : Type}.
Variable apply_callable : callable → dict → exception + instance.

Lemma call_eq (c : callable) (l : loc) (args : dict) (w : world) :
  heap w !! l = Some args →
  call apply_callable c l w =
  (called apply_callable c args,
   World (LOOKUP_DICT w) (heap w) (stderr w) (calls w ++ [(c, args)])).
Proof.
  intros Hl. unfold call, called. unfold bind. rewrite (deref_eq _ _ _ Hl).
  by destruct (apply_callable c args).
Qed.

(** A rejected signature: [merged] has been built, nothing else happened. *)
Lemma instantiate_unsupported (c : callable) (config : loc)
    (unused_keys : list string) (kwargs : dict) (w : world)
    (name : string) (k : ParameterKind) :
  first_unsupported (parameters c) = Some (name, k) →
  instantiate apply_callable c config unused_keys kwargs w =
  (inl (UnsupportedParameterKindError name k),
   with_heap
     (<[merged_loc w := merge_dicts (heap w !!! config) kwargs]> (heap w)) w).
Proof.
  intros Hu. unfold instantiate, deref. unfold bind at 1. unfold bind at 1.
  unfold get_heap at 1. unfold ret at 1. unfold bind at 1. rewrite alloc_eq.
  unfold bind at 1. rewrite check_parameters_eq, Hu. done.
Qed.

(** A catch-all keyword parameter: the callable gets all of [merged]. *)
Lemma instantiate_var_keyword (c : callable) (config : loc)
    (unused_keys : list string) (kwargs : dict) (w : world) :
  first_unsupported (parameters c) = None →
  has_var_keyword (parameters c) = true →
  let merged := merge_dicts (heap w !!! config) kwargs in
  instantiate apply_callable c config unused_keys kwargs w =
  (called apply_callable c merged,
   World (LOOKUP_DICT w) (<[merged_loc w := merged]> (heap w)) (stderr w)
     (calls w ++ [(c, merged)])).
Proof.
  intros Hu Hv merged. unfold instantiate, deref.
  unfold bind at 1. unfold bind at 1.
  unfold get_heap at 1. unfold ret at 1. unfold bind at 1. rewrite alloc_eq.
  unfold bind at 1. rewrite check_parameters_eq, Hu, Hv.
  rewrite (call_eq _ _ merged); [done |]. apply lookup_insert_eq.
Qed.

(** No catch-all: the callable gets the recognized entries of [merged],
    and the superfluous ones, if any, go into one warning. *)
Lemma instantiate_filtered (c : callable) (config : loc)
    (unused_keys : list string) (kwargs : dict) (w : world) :
  first_unsupported (parameters c) = None →
  has_var_keyword (parameters c) = false →
  let merged := merge_dicts (heap w !!! config) kwargs in
  let args := recognized (parameters c) merged in
  let missing := superfluous (parameters c) unused_keys merged in
  instantiate apply_callable c config unused_keys kwargs w =
  (called apply_callable c args,
   World (LOOKUP_DICT w) (<[merged_loc w := args]> (heap w))
     (stderr w ++ if decide (missing = ∅) then [] else [(c, missing)])
     (calls w ++ [(c, args)])).
Proof.
  intros Hu Hv merged args missing. unfold instantiate, deref.
  unfold bind at 1. unfold bind at 1.
  unfold get_heap at 1. unfold ret at 1. unfold bind at 1. rewrite alloc_eq.
  unfold bind at 1. rewrite check_parameters_eq, Hu, Hv.
  fold merged. fold (merged_loc w).
  set (w1 := with_heap (<[merged_loc w := merged]> (heap w)) w).
  assert (heap w1 !! merged_loc w = Some merged) as Hm by apply lookup_insert_eq.
  unfold bind at 1. rewrite (dict_keys_eq _ _ _ Hm).
  unfold bind at 1.
  rewrite (filter_loop_eq _ _ _ _ ∅ w1 merged Hm (NoDup_fst_map_to_list merged))
    by (intros k Hk; by apply elem_of_keys).
  assert (filter (λ kv : string * value,
                    kv.1 ∈ (map_to_list merged).*1
                    ∧ ¬ (kv.1 ∈ (parameters c).*1) ∧ ¬ (kv.1 ∈ unused_keys)) merged
          ∪ ∅ = missing) as ->.
  { unfold missing, superfluous. dict_pointwise k. rewrite lookup_empty.
    destruct (merged !! k) eqn:Hk; [| done].
    assert (k ∈ (map_to_list merged).*1) by (apply elem_of_keys; eauto).
    dict_cases. }
  assert (filter (λ kv : string * value,
                    ¬ (kv.1 ∈ (map_to_list merged).*1
                       ∧ ¬ (kv.1 ∈ (parameters c).*1))) merged = args) as ->.
  { unfold args, recognized. dict_pointwise k.
    destruct (merged !! k) eqn:Hk; [| done].
    assert (k ∈ (map_to_list merged).*1) by (apply elem_of_keys; eauto).
    dict_cases. }
  unfold w1, with_heap. cbn [heap LOOKUP_DICT stderr calls].
  rewrite insert_insert_eq.
  destruct (decide (missing = ∅)) as [He|He].
  - unfold bind at 1. unfold ret at 1.
    rewrite (call_eq _ _ args) by apply lookup_insert_eq.
    cbn [heap LOOKUP_DICT stderr calls]. by rewrite app_nil_r.
  - unfold bind at 1. unfold print_warning at 1.
    cbn [heap LOOKUP_DICT stderr calls].
    rewrite (call_eq _ _ args) by apply lookup_insert_eq.
    done.
Qed.

End InstantiatorFacts.

(** ** The registrar and the resolver *)

(** C7.  Three facts, each for every world it applies to.
    - Applying the decorator of [load(kind, name)] when [name] is already
      in the bucket of [kind] raises the duplicate-registration error and
      changes nothing, and so the existing entry stays.
    - A name that neither of two different kinds has yet registers under
      both, from any world, the empty registry included; each kind then
      resolves the name to its own callable.
    - [load] under the reserved kind "class_map" raises the reserved-kind
      error before it touches the store. *)
Theorem C7_registration_errors :
  (∀ (w : world) (kind name : string) (old obj : callable),
     entry w kind name = Some old →
     decorator (Decorator kind name) obj w
     = (inl (DuplicateRegistrationError name), w)
     ∧ exc_type (exception_of (DuplicateRegistrationError name)) = LookupError
     ∧ (kind ≠ class_map →
        (register kind name obj w).1 = inl (DuplicateRegistrationError name)
        ∧ entry (register kind name obj w).2 kind name = Some old
        ∧ ∀ k n, entry (register kind name obj w).2 k n = entry w k n))
  ∧ (∀ (w : world) (kind1 kind2 name : string) (obj1 obj2 : callable),
       kind1 ≠ class_map → kind2 ≠ class_map → kind1 ≠ kind2 →
       entry w kind1 name = None → entry w kind2 name = None →
       let w1 := (register kind1 name obj1 w).2 in
       let w2 := (register kind2 name obj2 w1).2 in
       (register kind1 name obj1 w).1 = inr obj1
       ∧ (register kind2 name obj2 w1).1 = inr obj2
       ∧ lookup kind1 (Str name) w2 = (inr obj1, w2)
       ∧ lookup kind2 (Str name) w2 = (inr obj2, w2))
  ∧ (∀ (n : string) (o : callable) (w0 : world),
       load class_map n w0 = (inl ReservedKindError, w0)
       ∧ register class_map n o w0 = (inl ReservedKindError, w0)
       ∧ exc_type (exception_of ReservedKindError) = AssertionError).
Proof.
  split; [| split].
  - intros w kind name old obj Hold.
    pose proof (entry_Some_bucket _ _ _ _ Hold) as Hb.
    split; [| split; [done |]].
    + unfold entry in Hold. rewrite decorator_eq. simpl. rewrite Hold.
      by rewrite (ensure_present _ _ _ Hb), with_store_id.
    + intros Hk.
      assert (∀ k n, entry (register kind name obj w).2 k n = entry w k n) as Hkept.
      { intros k n. rewrite register_eq, decide_False by done. simpl.
        unfold entry in Hold. rewrite Hold. simpl. unfold entry. simpl.
        by rewrite !bucket_of_ensure. }
      split; [| split; [| exact Hkept]].
      * rewrite register_eq, decide_False by done. simpl.
        unfold entry in Hold. by rewrite Hold.
      * by rewrite Hkept.
  - intros w kind1 kind2 name obj1 obj2 Hk1 Hk2 Hne Hn1 Hn2. cbv zeta.
    assert (entry (register kind1 name obj1 w).2 kind1 name = Some obj1) as E1.
    { rewrite entry_register by done. by rewrite decide_True. }
    assert (entry (register kind1 name obj1 w).2 kind2 name = None) as E2.
    { rewrite entry_register by done.
      rewrite decide_False; [done | intros (_ & ? & _); congruence]. }
    set (w1 := (register kind1 name obj1 w).2) in *.
    assert (entry (register kind2 name obj2 w1).2 kind2 name = Some obj2) as E3.
    { rewrite entry_register by done. by rewrite decide_True. }
    assert (entry (register kind2 name obj2 w1).2 kind1 name = Some obj1) as E4.
    { rewrite entry_register by done.
      rewrite decide_False; [done | intros (_ & ? & _); congruence]. }
    set (w2 := (register kind2 name obj2 w1).2) in *.
    split; [| split; [| split]].
    + unfold w1. rewrite register_eq, decide_False by done. simpl.
      unfold entry in Hn1. by rewrite Hn1.
    + unfold w2. rewrite register_eq, decide_False by done. simpl.
      unfold entry in E2. by rewrite E2.
    + rewrite lookup_str_eq, (entry_Some_bucket _ _ _ _ E4).
      unfold entry in E4. by rewrite E4.
    + rewrite lookup_str_eq, (entry_Some_bucket _ _ _ _ E3).
      unfold entry in E3. by rewrite E3.
  - intros n o w0. split; [| split; [| done]].
    + by rewrite load_eq, decide_True.
    + by rewrite register_eq, decide_True.
Qed.

(** The duplicate in a world that has the entry; the two kinds from the
    empty registry. *)
Lemma C7_witness :
  (entry w_reg "model" "net" = Some Net
   ∧ decorator (Decorator "model" "net") Net2 w_reg
     = (inl (DuplicateRegistrationError "net"), w_reg)
   ∧ entry (register "model" "net" Net2 w_reg).2 "model" "net" = Some Net)
  ∧ (entry w_init "model" "dlrm" = None
     ∧ entry w_init "trainer" "dlrm" = None
     ∧ (register "model" "dlrm" Any w_init).1 = inr Any
     ∧ (register "trainer" "dlrm" Net2 (register "model" "dlrm" Any w_init).2).1
       = inr Net2
     ∧ lookup "model" (Str "dlrm")
         (register "trainer" "dlrm" Net2 (register "model" "dlrm" Any w_init).2).2
       = (inr Any,
          (register "trainer" "dlrm" Net2 (register "model" "dlrm" Any w_init).2).2)
     ∧ lookup "trainer" (Str "dlrm")
         (register "trainer" "dlrm" Net2 (register "model" "dlrm" Any w_init).2).2
       = (inr Net2,
          (register "trainer" "dlrm" Net2 (register "model" "dlrm" Any w_init).2).2)).
Proof.
  assert (entry w_reg "model" "net" = Some Net) as Hold by (vm_compute; reflexivity).
  assert (entry w_init "model" "dlrm" = None) as Hn1 by (vm_compute; reflexivity).
  assert (entry w_init "trainer" "dlrm" = None) as Hn2 by (vm_compute; reflexivity).
  assert ("model" ≠ class_map) as Hk by (intros [=]).
  assert ("trainer" ≠ class_map) as Hk2 by (intros [=]).
  assert ("model" ≠ "trainer") as Hne by (intros [=]).
  destruct C7_registration_errors as (Hdup & Htwo & _).
  destruct (Hdup w_reg "model" "net" Net Net2 Hold) as (Hd & _ & Hr).
  destruct (Hr Hk) as (_ & Hstays & _).
  destruct (Htwo w_init "model" "trainer" "dlrm" Any Net2 Hk Hk2 Hne Hn1 Hn2)
    as (H1 & H2 & H3 & H4).
  split.
  - split; [exact Hold |]. split; [exact Hd | exact Hstays].
  - split; [exact Hn1 |]. split; [exact Hn2 |]. split; [exact H1 |].
    split; [exact H2 |]. split; [exact H3 | exact H4].
Defined.

(** C10.  A bare [load(kind, name)], its decorator never applied, puts an
    empty bucket for [kind] into the store (and one for "class_map" when
    there was none), because both reads go through the defaultdict.  Before
    the call [lookup(kind, ...)] fails at the kind check; after it the kind
    check passes and every lookup under [kind] fails at the name, whether
    the name is given as a str or through the "name" field of a mapping. *)
Theorem C10_load_creates_empty_bucket (w : world) (kind name : string) :
  kind ≠ class_map →
  LOOKUP_DICT w !! kind = None →
  let w' := (load kind name w).2 in
  (load kind name w).1 = inr (Decorator kind name)
  ∧ LOOKUP_DICT w' !! kind = Some ∅
  ∧ LOOKUP_DICT w' !! class_map = Some (bucket_of (LOOKUP_DICT w) class_map)
  ∧ (∀ n, lookup kind (Str n) w = (inl (UnknownKindError kind), w))
  ∧ (∀ n, lookup kind (Str n) w' = (inl (UnknownNameError (VStr n)), w'))
  ∧ (∀ l v, (heap w' !!! l : dict) !! "name" = Some v →
            lookup kind (Mapping l) w' = (inl (UnknownNameError v), w')).
Proof.
  intros Hk Hnone w'.
  assert (LOOKUP_DICT w' !! kind = Some ∅) as Hb.
  { unfold w'. rewrite load_eq, decide_False by done. simpl.
    rewrite !ensure_lookup. rewrite decide_False by done.
    rewrite decide_True by done. unfold bucket_of. by rewrite Hnone. }
  split; [| split; [done |]; split; [| split; [| split]]].
  - by rewrite load_eq, decide_False.
  - unfold w'. rewrite load_eq, decide_False by done. simpl.
    rewrite ensure_lookup, decide_True by done. by rewrite bucket_of_ensure.
  - intros n. by rewrite lookup_str_eq, Hnone.
  - intros n. by rewrite lookup_str_eq, Hb, lookup_empty.
  - intros l v Hv. rewrite lookup_mapping_eq, Hv, Hb.
    by destruct v.
Qed.

Lemma C10_witness :
  LOOKUP_DICT w_loaded !! "model" = Some ∅
  ∧ lookup "model" (Str "net") w_loaded
    = (inl (UnknownNameError (VStr "net")), w_loaded).
Proof.
  assert ("model" ≠ class_map) as Hk by (intros [=]).
  assert (LOOKUP_DICT w_init !! "model" = None) as Hn by (vm_compute; reflexivity).
  destruct (C10_load_creates_empty_bucket w_init "model" "net" Hk Hn)
    as (_ & Hb & _ & _ & Hl & _).
  split; [exact Hb | exact (Hl "net")].
Defined.

(** The argument of the exception that the kind check raises is a message;
    the one a missing name raises is the name itself. *)
Lemma lookup_exceptions_equal_iff (kind name : string) :
  exception_of (UnknownKindError kind) = exception_of (UnknownNameError (VStr name))
  ↔ name = nothing_registered kind.
Proof.
  simpl. split.
  - by intros [= ->].
  - by intros ->.
Qed.

(** C6, as stated, fails twice.  After a bare [load("model", "net")]
    nothing is registered under "model", yet [lookup("model", "net")]
    raises the missing-name error, not the unregistered-kind error.  And
    the two failures cannot always be told apart: for the name that spells
    the message of the kind check, the registry without the kind and the
    registry with the kind but without the name raise the same exception,
    class and argument. *)
Lemma C6_counterexample :
  ((∀ n, entry w_loaded "model" n = None)
   ∧ lookup "model" (Str "net") w_loaded
     = (inl (UnknownNameError (VStr "net")), w_loaded)
   ∧ (lookup "model" (Str "net") w_loaded).1 ≠ inl (UnknownKindError "model")
   ∧ exception_of (UnknownNameError (VStr "net"))
     ≠ exception_of (UnknownKindError "model"))
  ∧ (LOOKUP_DICT w_init !! "model" = None
     ∧ entry w_reg "model" "net" = Some Net
     ∧ lookup "model" (Str (nothing_registered "model")) w_init
       = (inl (UnknownKindError "model"), w_init)
     ∧ lookup "model" (Str (nothing_registered "model")) w_reg
       = (inl (UnknownNameError (VStr (nothing_registered "model"))), w_reg)
     ∧ exception_of (UnknownKindError "model")
       = exception_of (UnknownNameError (VStr (nothing_registered "model")))).
Proof.
  assert (lookup "model" (Str "net") w_loaded
          = (inl (UnknownNameError (VStr "net")), w_loaded)) as Hl
    by (vm_compute; reflexivity).
  split.
  - split; [| split; [exact Hl |]; split].
    + intros n. unfold entry.
      assert (bucket_of (LOOKUP_DICT w_loaded) "model" = ∅) as ->
        by (vm_compute; reflexivity).
      apply lookup_empty.
    + rewrite Hl. simpl. intros [=].
    + simpl. intros [=].
  - split; [vm_compute; reflexivity |]. split; [vm_compute; reflexivity |].
    split; [vm_compute; reflexivity |]. split; [vm_compute; reflexivity |].
    reflexivity.
Qed.

(** C6, amended.  Five facts, each for every world it applies to.
    - A kind that has no bucket in the store: [lookup] raises the
      unregistered-kind error.
    - A kind that has a bucket, empty or not, without the name: [lookup]
      raises the missing-name error.
    - A bare [load(kind, ...)] registers nothing, and yet after it a kind
      that had no bucket has one: [lookup] under it raises the
      missing-name error.
    - Both errors are [KeyError]s; the exceptions are equal exactly when
      the name looked up is the text of the kind-check message.
    - For a registered [(kind, name)], the str [name] and any mapping
      whose "name" field is [name] resolve to the same callable, and the
      world is left as it was. *)
Theorem C6_lookup_errors :
  (∀ (w : world) (kind name : string),
     LOOKUP_DICT w !! kind = None →
     lookup kind (Str name) w = (inl (UnknownKindError kind), w))
  ∧ (∀ (w : world) (kind : string) (b : bucket) (name : string),
       LOOKUP_DICT w !! kind = Some b →
       b !! name = None →
       lookup kind (Str name) w = (inl (UnknownNameError (VStr name)), w))
  ∧ (∀ (w : world) (kind name0 name : string),
       kind ≠ class_map →
       let w' := (load kind name0 w).2 in
       (∀ k n, entry w' k n = entry w k n)
       ∧ (LOOKUP_DICT w !! kind = None →
          lookup kind (Str name) w' = (inl (UnknownNameError (VStr name)), w')))
  ∧ (∀ (kind : string) (name : value),
       exc_type (exception_of (UnknownKindError kind)) = KeyError
       ∧ exc_type (exception_of (UnknownNameError name)) = KeyError
       ∧ (exception_of (UnknownKindError kind) = exception_of (UnknownNameError name)
          ↔ name = VStr (nothing_registered kind)))
  ∧ (∀ (w : world) (kind : string) (b : bucket) (name : string) (obj : callable),
       LOOKUP_DICT w !! kind = Some b →
       b !! name = Some obj →
       lookup kind (Str name) w = (inr obj, w)
       ∧ ∀ (l : loc) (m : dict),
           heap w !! l = Some m →
           m !! "name" = Some (VStr name) →
           lookup kind (Mapping l) w = (inr obj, w)).
Proof.
  split; [| split; [| split; [| split]]].
  - intros w kind name Hnone. by rewrite lookup_str_eq, Hnone.
  - intros w kind b name Hb Hn. by rewrite lookup_str_eq, Hb, Hn.
  - intros w kind name0 name Hk. cbv zeta.
    rewrite load_eq, decide_False by done. simpl. split.
    + intros k n. unfold entry. simpl. by rewrite !bucket_of_ensure.
    + intros Hnone. rewrite lookup_str_eq. simpl.
      rewrite !ensure_lookup. rewrite decide_False by done.
      rewrite decide_True by done. unfold bucket_of. rewrite Hnone.
      simpl. by rewrite lookup_empty.
  - intros kind name. split; [done |]. split; [done |]. simpl. split.
    + by intros [= <-].
    + by intros ->.
  - intros w kind b name obj Hb Hn. split.
    + by rewrite lookup_str_eq, Hb, Hn.
    + intros l m Hl Hm.
      rewrite lookup_mapping_eq, (lookup_total_correct _ _ _ Hl), Hm, Hb.
      simpl. by rewrite Hn.
Qed.

(** The kind check in the empty registry, the empty bucket a bare [load]
    leaves, and a registered entry through a str and through a mapping. *)
Lemma C6_witness :
  lookup "model" (Str "net") w_init = (inl (UnknownKindError "model"), w_init)
  ∧ LOOKUP_DICT w_loaded !! "model" = Some ∅
  ∧ lookup "model" (Str "net") w_loaded
    = (inl (UnknownNameError (VStr "net")), w_loaded)
  ∧ lookup "model" (Str "net") (load "model" "dlrm" w_init).2
    = (inl (UnknownNameError (VStr "net")), (load "model" "dlrm" w_init).2)
  ∧ lookup "model" (Str "dlrm") w_reg_cfg
    = (inl (UnknownNameError (VStr "dlrm")), w_reg_cfg)
  ∧ lookup "model" (Str "net") w_reg_cfg = (inr Net, w_reg_cfg)
  ∧ lookup "model" (Mapping 1%positive) w_reg_cfg = (inr Net, w_reg_cfg).
Proof.
  assert (LOOKUP_DICT w_init !! "model" = None) as H0
    by (vm_compute; reflexivity).
  assert (LOOKUP_DICT w_loaded !! "model" = Some ∅) as H1
    by (vm_compute; reflexivity).
  assert (LOOKUP_DICT w_reg_cfg !! "model" = Some {[ "net" := Net ]}) as H2
    by (vm_compute; reflexivity).
  assert (({[ "net" := Net ]} : bucket) !! "dlrm" = None) as H3
    by (vm_compute; reflexivity).
  assert (({[ "net" := Net ]} : bucket) !! "net" = Some Net) as H4
    by (vm_compute; reflexivity).
  assert (heap w_reg_cfg !! 1%positive = Some cfg_abc) as H5
    by (vm_compute; reflexivity).
  assert (cfg_abc !! "name" = Some (VStr "net")) as H6
    by (vm_compute; reflexivity).
  assert ("model" ≠ class_map) as Hk by (intros [=]).
  destruct C6_lookup_errors as (Hkind & Hname & Hload & _ & Hfound).
  destruct (Hload w_init "model" "dlrm" "net" Hk) as (_ & Hbare).
  destruct (Hfound w_reg_cfg "model" _ "net" Net H2 H4) as (Hstr & Hmap).
  split; [exact (Hkind w_init "model" "net" H0) |].
  split; [exact H1 |].
  split; [exact (Hname w_loaded "model" ∅ "net" H1 (lookup_empty _)) |].
  split; [exact (Hbare H0) |].
  split; [exact (Hname w_reg_cfg "model" _ "dlrm" H2 H3) |].
  split; [exact Hstr | exact (Hmap 1%positive cfg_abc H5 H6)].
Defined.

(** ** The class map *)

(** C9.  [register_class_ref] with [name] omitted fails, leaving the store
    as it was, when its argument is no subclass of [Registrable]: the
    assertion fails for a class, and [issubclass] itself raises for a
    callable that is no class.  For a subclass, it returns the class, and
    [lookup_class_ref] of its [type_name()] then returns that same class.
    [lookup_class_ref] of an identity that the class map does not hold
    raises the unknown-class error. *)
Theorem C9_class_ref_round_trip
    (w : world) (c c' : callable) (class_name : string) :
  obj_sort c ≠ Class true →
  obj_sort c' = Class true →
  entry w class_map class_name = None →
  register_class_ref c None w
    = (inl (match obj_sort c with
            | Function => NotAClassError
            | Class _ => PreconditionError
            end), w)
  ∧ (let w1 := (register_class_ref c' None w).2 in
     (register_class_ref c' None w).1 = inr c'
     ∧ (lookup_class_ref (type_name c') w1).1 = inr c')
  ∧ (lookup_class_ref class_name w).1 = inl (UnknownClassError class_name)
  ∧ exc_type (exception_of (UnknownClassError class_name)) = KeyError.
Proof.
  intros Hc Hc' Hn. split; [| split; [| split; [| done]]].
  - rewrite register_class_ref_None_eq. by destruct (obj_sort c) as [|[|]].
  - simpl. rewrite register_class_ref_None_eq, Hc'. simpl. split; [done |].
    rewrite lookup_class_ref_eq. simpl.
    by rewrite bucket_of_setitem, decide_True, lookup_insert_eq.
  - rewrite lookup_class_ref_eq. simpl. unfold entry in Hn. by rewrite Hn.
Qed.

Lemma C9_witness :
  register_class_ref Net2 None w_init = (inl PreconditionError, w_init)
  ∧ register_class_ref PosOnly None w_init = (inl NotAClassError, w_init)
  ∧ (lookup_class_ref "models.Net" (register_class_ref Net None w_init).2).1
    = inr Net
  ∧ (lookup_class_ref "models.Any" w_init).1 = inl (UnknownClassError "models.Any").
Proof.
  assert (obj_sort Net2 ≠ Class true) as H1 by (intros [=]).
  assert (obj_sort PosOnly ≠ Class true) as H1' by (intros [=]).
  assert (obj_sort Net = Class true) as H2 by reflexivity.
  assert (entry w_init class_map "models.Any" = None) as H3
    by (vm_compute; reflexivity).
  destruct (C9_class_ref_round_trip w_init Net2 Net "models.Any" H1 H2 H3)
    as (Ha & (_ & Hb) & Hc & _).
  destruct (C9_class_ref_round_trip w_init PosOnly Net "models.Any" H1' H2 H3)
    as (Ha' & _).
  split; [exact Ha |]. split; [exact Ha' |]. split; [exact Hb | exact Hc].
Defined.

(** C1, as stated, fails for the class map.  After [@load("model", "net")]
    on [Net] the class map holds [Net] under "models.Net"; both
    [register_class_ref] under that name and an ordinary registration of
    another class of the same module and name replace that entry. *)
Lemma C1_counterexample :
  entry w_reg class_map "models.Net" = Some Net
  ∧ entry (run_op (RegisterClassRef Net2 (Some "models.Net")) w_reg).2
      class_map "models.Net" = Some Net2
  ∧ entry (run_op (Register "trainer" "net" Net2) w_reg).2
      class_map "models.Net" = Some Net2
  ∧ ¬ entries_kept w_reg (run_op (RegisterClassRef Net2 (Some "models.Net")) w_reg).2
  ∧ ¬ entries_kept w_reg (run_op (Register "trainer" "net" Net2) w_reg).2.
Proof.
  assert (entry w_reg class_map "models.Net" = Some Net) as H0
    by (vm_compute; reflexivity).
  assert (entry (run_op (RegisterClassRef Net2 (Some "models.Net")) w_reg).2
            class_map "models.Net" = Some Net2) as H1
    by (vm_compute; reflexivity).
  assert (entry (run_op (Register "trainer" "net" Net2) w_reg).2
            class_map "models.Net" = Some Net2) as H2
    by (vm_compute; reflexivity).
  split; [exact H0 |]. split; [exact H1 |]. split; [exact H2 |]. split.
  - intros Hkept. specialize (Hkept _ _ _ H0). rewrite H1 in Hkept.
    by injection Hkept.
  - intros Hkept. specialize (Hkept _ _ _ H0). rewrite H2 in Hkept.
    by injection Hkept.
Qed.

(** C1, amended.  A bucket is a dict, so a name occurs in it once.  Over
    any sequence of registrations, through the decorator of [load] and
    through [register_class_ref], an entry of a bucket other than
    "class_map" is never replaced or removed.  The class map is written
    without a check: [register_class_ref] under a name, and the side write
    of a registration that succeeds, put their callable there whatever
    was there before. *)
Theorem C1_registration_keeps_entries
    (ops : list write_op) (w : world) (kind name : string) (obj : callable) :
  kind ≠ class_map →
  entry w kind name = Some obj →
  entry (run_ops ops w) kind name = Some obj
  ∧ (∀ class_ref n w0,
       entry (run_op (RegisterClassRef class_ref (Some n)) w0).2 class_map n
       = Some class_ref)
  ∧ (∀ k n o w0,
       k ≠ class_map → entry w0 k n = None →
       entry (run_op (Register k n o) w0).2 class_map (qualified_name o) = Some o).
Proof.
  intros Hk He. split; [| split].
  - revert w He. induction ops as [|op ops IH]; intros w He; [done |].
    simpl. apply IH. by apply run_op_keeps.
  - intros class_ref n w0. simpl. rewrite register_class_ref_named_eq. simpl.
    rewrite entry_with_store, bucket_of_setitem, decide_True by done.
    apply lookup_insert_eq.
  - intros k n o w0 Hk0 Hn. simpl. rewrite register_eq, decide_False by done.
    simpl. unfold entry in Hn. rewrite Hn. simpl.
    rewrite entry_with_store, bucket_of_setitem, decide_True by done.
    apply lookup_insert_eq.
Qed.

Lemma C1_witness :
  entry (run_ops [Register "model" "net" Net2;
                  RegisterClassRef Net2 (Some "models.Net");
                  Register "trainer" "net" Net2] w_reg) "model" "net"
  = Some Net.
Proof.
  assert ("model" ≠ class_map) as Hk by (intros [=]).
  assert (entry w_reg "model" "net" = Some Net) as He by (vm_compute; reflexivity).
  exact (proj1 (C1_registration_keeps_entries
                  [Register "model" "net" Net2;
                   RegisterClassRef Net2 (Some "models.Net");
                   Register "trainer" "net" Net2] w_reg "model" "net" Net Hk He)).
Defined.

(** ** The instantiator *)

Lemma new_calls_app (w w' : world) (l : list (callable * dict)) :
  calls w' = (calls w ++ l)%list → new_calls w w' = l.
Proof. unfold new_calls. intros ->. apply drop_app_length. Qed.

Lemma new_warnings_app (w w' : world) (l : list (callable * dict)) :
  stderr w' = (stderr w ++ l)%list → new_warnings w w' = l.
Proof. unfold new_warnings. intros ->. apply drop_app_length. Qed.

Lemma new_calls_none (w w' : world) : calls w' = calls w → new_calls w w' = [].
Proof. intros H. apply new_calls_app. by rewrite app_nil_r. Qed.

Lemma new_warnings_none (w w' : world) : stderr w' = stderr w → new_warnings w w' = [].
Proof. intros H. apply new_warnings_app. by rewrite app_nil_r. Qed.

Lemma first_unsupported_is_Some (ps : list (string * ParameterKind))
    (name : string) (k : ParameterKind) :
  (name, k) ∈ ps → k = POSITIONAL_ONLY ∨ k = VAR_POSITIONAL →
  is_Some (first_unsupported ps).
Proof.
  intros Hin Hk. destruct (first_unsupported ps) eqn:E; [eauto |].
  destruct (proj1 (first_unsupported_None ps) E name k Hin) as [? ?].
  by destruct Hk.
Qed.

Lemma lookup_pure (kind : string) (name : str_or_mapping) (w : world) :
  lookup kind name w = ((lookup kind name w).1, w).
Proof.
  destruct name as [s|l].
  - rewrite lookup_str_eq. destruct (LOOKUP_DICT w !! kind) as [b|]; [| done].
    by destruct (b !! s).
  - rewrite lookup_mapping_eq.
    destruct ((heap w !!! l : dict) !! "name") as [v|]; [| done].
    destruct (LOOKUP_DICT w !! kind) as [b|]; [| done].
    destruct v; try done. simpl. by destruct (b !! s).
Qed.

Section InstantiatorClaims.

Context {instance : Type}.
Variable apply_callable : callable → dict → exception + instance.

(** C5.  When one parameter of the callable is positional-only or
    variadic-positional, [instantiate] raises the unsupported-kind error
    (a [ValueError]) for the first such parameter, whatever [config],
    [unused_keys] and the overrides are; the callable is not called,
    nothing is printed and the registry is not touched. *)
Theorem C5_unsupported_parameter_kind
    (c : callable) (config : loc) (unused_keys : list string) (kwargs : dict)
    (w : world) (name : string) (k : ParameterKind) :
  (name, k) ∈ parameters c →
  k = POSITIONAL_ONLY ∨ k = VAR_POSITIONAL →
  let r := instantiate apply_callable c config unused_keys kwargs w in
  ∃ name' k',
    (name', k') ∈ parameters c
    ∧ (k' = POSITIONAL_ONLY ∨ k' = VAR_POSITIONAL)
    ∧ r.1 = inl (UnsupportedParameterKindError name' k')
    ∧ exc_type (exception_of (UnsupportedParameterKindError name' k')) = ValueError
    ∧ calls r.2 = calls w
    ∧ new_calls w r.2 = []
    ∧ stderr r.2 = stderr w
    ∧ LOOKUP_DICT r.2 = LOOKUP_DICT w.
Proof.
  intros Hin Hk r.
  destruct (first_unsupported_is_Some _ _ _ Hin Hk) as [[name' k'] Hf].
  destruct (first_unsupported_Some _ _ _ Hf) as [Hin' Hk'].
  exists name', k'. unfold r.
  rewrite (instantiate_unsupported _ _ _ _ _ _ _ _ Hf). simpl.
  repeat (split; [done |]). split; [by apply new_calls_none | done].
Qed.


Lemma recognized_lookup (ps : list (string * ParameterKind)) (merged : dict)
    (key : string) :
  recognized ps merged !! key =
  if decide (key ∈ ps.*1) then merged !! key else None.
Proof.
  unfold recognized. rewrite lookup_filter_dec. cbn [fst snd].
  destruct (merged !! key); dict_cases.
Qed.

Lemma superfluous_lookup (ps : list (string * ParameterKind))
    (unused_keys : list string) (merged : dict) (key : string) :
  superfluous ps unused_keys merged !! key =
  if decide (key ∈ ps.*1 ∨ key ∈ unused_keys) then None else merged !! key.
Proof.
  unfold superfluous. rewrite lookup_filter_dec. cbn [fst snd].
  destruct (merged !! key); dict_cases.
Qed.

(** Whatever [instantiate] does, the heap afterwards is the heap before
    plus the one new dict [merged]. *)
Lemma instantiate_heap (c : callable) (config : loc)
    (unused_keys : list string) (kwargs : dict) (w : world) :
  ∃ d, heap (instantiate apply_callable c config unused_keys kwargs w).2
       = <[merged_loc w := d]> (heap w).
Proof.
  destruct (first_unsupported (parameters c)) as [[name k]|] eqn:Hu.
  - rewrite (instantiate_unsupported _ _ _ _ _ _ _ _ Hu). simpl. eauto.
  - destruct (has_var_keyword (parameters c)) eqn:Hv.
    + rewrite (instantiate_var_keyword _ _ _ _ _ _ Hu Hv). simpl. eauto.
    + rewrite (instantiate_filtered _ _ _ _ _ _ Hu Hv). simpl. eauto.
Qed.

Lemma instantiate_heap_kept (c : callable) (config : loc)
    (unused_keys : list string) (kwargs : dict) (w : world) (l : loc) (d : dict) :
  heap w !! l = Some d →
  heap (instantiate apply_callable c config unused_keys kwargs w).2 !! l = Some d.
Proof.
  intros Hl. destruct (instantiate_heap c config unused_keys kwargs w) as [d' ->].
  rewrite lookup_insert_ne; [done |]. symmetry. by eapply fresh_not_live.
Qed.

(** [construct]: a str config becomes a new dict with the one field
    "name"; then [lookup]; then the call of [instantiate] with "name" added
    to [unused_keys], which a colliding override prevents. *)
Lemma construct_eq (kind : string) (config : str_or_mapping)
    (unused_keys : list string) (kwargs : dict) (w : world) :
  construct apply_callable kind config unused_keys kwargs w =
  let w0 := match config with
            | Str s =>
                with_heap (<[fresh (dom (heap w)) := {[ "name" := VStr s ]}]> (heap w)) w
            | Mapping _ => w
            end in
  let l := match config with
           | Str _ => fresh (dom (heap w))
           | Mapping l => l
           end in
  match (lookup kind config w).1 with
  | inl e => (inl e, w0)
  | inr c =>
      match colliding_override kwargs with
      | Some name => (inl (MultipleValuesError name), w0)
      | None => instantiate apply_callable c l (unused_keys ++ ["name"]) kwargs w0
      end
  end.
Proof.
  unfold construct. destruct config as [s|l]; simpl.
  - unfold bind at 1. rewrite alloc_eq. unfold bind at 1.
    set (w0 := with_heap _ w).
    assert (lookup kind (Mapping (fresh (dom (heap w)))) w0
            = ((lookup kind (Str s) w).1, w0)) as ->.
    { rewrite lookup_mapping_eq, lookup_str_eq. unfold w0 at 1 2. simpl.
      rewrite lookup_total_insert_eq, lookup_singleton_eq.
      destruct (LOOKUP_DICT w !! kind) as [b|]; [| done].
      simpl. by destruct (b !! s). }
    destruct ((lookup kind (Str s) w).1); [done |].
    by destruct (colliding_override kwargs).
  - unfold bind at 1. unfold ret at 1. unfold bind at 1.
    rewrite lookup_pure. destruct ((lookup kind (Mapping l) w).1); [done |].
    by destruct (colliding_override kwargs).
Qed.

(** C3.  [instantiate] merges [config] and the overrides key by key: a
    key of [config] alone keeps the value of [config], a key of the
    overrides alone keeps the override, a key of both takes the override,
    and no other key appears.  When the signature is supported the
    callable is called once, with [merged] itself if it has a catch-all
    keyword parameter and else with the value of [merged] at every
    parameter it declares. *)
Theorem C3_merge_right_biased
    (c : callable) (config : loc) (cfg : dict) (unused_keys : list string)
    (kwargs : dict) (w : world) :
  heap w !! config = Some cfg →
  let merged := merge_dicts cfg kwargs in
  let r := instantiate apply_callable c config unused_keys kwargs w in
  (∀ key v, cfg !! key = Some v → kwargs !! key = None → merged !! key = Some v)
  ∧ (∀ key v, cfg !! key = None → kwargs !! key = Some v → merged !! key = Some v)
  ∧ (∀ key v v', cfg !! key = Some v → kwargs !! key = Some v' →
                 merged !! key = Some v')
  ∧ (∀ key, cfg !! key = None → kwargs !! key = None → merged !! key = None)
  ∧ (first_unsupported (parameters c) = None →
     ∃ args,
       new_calls w r.2 = [(c, args)]
       ∧ r.1 = called apply_callable c args
       ∧ (has_var_keyword (parameters c) = true → args = merged)
       ∧ (∀ key, key ∈ (parameters c).*1 → args !! key = merged !! key)).
Proof.
  intros Hcfg merged r.
  split; [| split; [| split; [| split]]].
  - intros key v H1 H2. unfold merged. by rewrite merge_dicts_lookup, H2.
  - intros key v H1 H2. unfold merged. by rewrite merge_dicts_lookup, H2.
  - intros key v v' H1 H2. unfold merged. by rewrite merge_dicts_lookup, H2.
  - intros key H1 H2. unfold merged. by rewrite merge_dicts_lookup, H2.
  - intros Hu. unfold r, merged.
    rewrite <- (lookup_total_correct _ _ _ Hcfg).
    destruct (has_var_keyword (parameters c)) eqn:Hv.
    + rewrite (instantiate_var_keyword _ _ _ _ _ _ Hu Hv). simpl.
      eexists. split; [by apply new_calls_app |]. done.
    + rewrite (instantiate_filtered _ _ _ _ _ _ Hu Hv). simpl.
      eexists. split; [by apply new_calls_app |].
      split; [done |]. split; [done |].
      intros key Hkey. by rewrite recognized_lookup, decide_True.
Qed.

(** C4.  For a callable without a catch-all keyword parameter whose
    signature is supported, [instantiate] calls it once, with exactly the
    entries of [merged] at declared parameters: every other key is
    dropped, listed in [unused_keys] or not, and the result is whatever
    the callable returns or raises on those arguments.  The dropped
    entries that [unused_keys] does not list make up [missing]; one
    warning carrying all of [missing] is printed when it is not empty and
    none when it is.  A rejected signature raises before any of this:
    no call, no warning. *)
Theorem C4_extraneous_keys
    (c : callable) (config : loc) (cfg : dict) (unused_keys : list string)
    (kwargs : dict) (w : world) :
  heap w !! config = Some cfg →
  has_var_keyword (parameters c) = false →
  let merged := merge_dicts cfg kwargs in
  let args := recognized (parameters c) merged in
  let missing := superfluous (parameters c) unused_keys merged in
  let r := instantiate apply_callable c config unused_keys kwargs w in
  (∀ key, args !! key = if decide (key ∈ (parameters c).*1)
                        then merged !! key else None)
  ∧ (∀ key, missing !! key =
            if decide (key ∈ (parameters c).*1 ∨ key ∈ unused_keys)
            then None else merged !! key)
  ∧ (first_unsupported (parameters c) = None →
     r.1 = called apply_callable c args
     ∧ new_calls w r.2 = [(c, args)]
     ∧ new_warnings w r.2 = if decide (missing = ∅) then [] else [(c, missing)])
  ∧ (∀ name k, first_unsupported (parameters c) = Some (name, k) →
     r.1 = inl (UnsupportedParameterKindError name k)
     ∧ new_calls w r.2 = []
     ∧ new_warnings w r.2 = []).
Proof.
  intros Hcfg Hv merged args missing r.
  split; [| split; [| split]].
  - intros key. apply recognized_lookup.
  - intros key. apply superfluous_lookup.
  - intros Hu. unfold r, args, missing, merged.
    rewrite <- (lookup_total_correct _ _ _ Hcfg).
    rewrite (instantiate_filtered _ _ _ _ _ _ Hu Hv). simpl.
    split; [done |]. split; [by apply new_calls_app |].
    by apply new_warnings_app.
  - intros name k Hu. unfold r.
    rewrite (instantiate_unsupported _ _ _ _ _ _ _ _ Hu). simpl.
    split; [done |]. split; [by apply new_calls_none | by apply new_warnings_none].
Qed.

(** C8.  The dict the caller passes as [config] is the same after
    [instantiate] and after [construct], whatever keys were filtered out
    and whether or not a warning was printed or an exception raised:
    [merged] is a new dict at an address of its own, and the keys are
    popped from it.  The same holds for every other dict that was live
    before the call, also when [construct] is given a str. *)
Theorem C8_config_not_mutated
    (c : callable) (kind : string) (config : loc) (cfg : dict)
    (unused_keys : list string) (kwargs : dict) (w : world) (s : string) :
  heap w !! config = Some cfg →
  merged_loc w ≠ config
  ∧ heap (instantiate apply_callable c config unused_keys kwargs w).2 !! config
    = Some cfg
  ∧ heap (construct apply_callable kind (Mapping config) unused_keys kwargs w).2
      !! config = Some cfg
  ∧ heap (construct apply_callable kind (Str s) unused_keys kwargs w).2
      !! config = Some cfg.
Proof.
  intros Hcfg. split; [| split; [| split]].
  - symmetry. by eapply fresh_not_live.
  - by apply instantiate_heap_kept.
  - rewrite construct_eq. simpl.
    destruct ((lookup kind (Mapping config) w).1); [done |].
    destruct (colliding_override kwargs); [done |].
    by apply instantiate_heap_kept.
  - rewrite construct_eq. simpl.
    assert (heap (with_heap
                    (<[fresh (dom (heap w)) := {[ "name" := VStr s ]}]> (heap w)) w)
              !! config = Some cfg) as Hcfg'.
    { simpl. rewrite lookup_insert_ne; [done |]. symmetry.
      by eapply fresh_not_live. }
    destruct ((lookup kind (Str s) w).1); [done |].
    destruct (colliding_override kwargs); [done |].
    by apply instantiate_heap_kept.
Qed.


End InstantiatorClaims.

(** ** The claims on concrete calls *)

Lemma C5_witness :
  ("x", POSITIONAL_ONLY) ∈ parameters PosOnly
  ∧ ∃ name k,
      (instantiate returns_kwargs PosOnly 1%positive [] ∅ w_cfg).1
      = inl (UnsupportedParameterKindError name k).
Proof.
  assert (("x", POSITIONAL_ONLY) ∈ parameters PosOnly) as Hin by left.
  split; [exact Hin |].
  destruct (C5_unsupported_parameter_kind returns_kwargs PosOnly 1%positive [] ∅
              w_cfg "x" POSITIONAL_ONLY Hin (or_introl eq_refl))
    as (name & k & _ & _ & Hr & _).
  exists name, k. exact Hr.
Defined.

Lemma C3_witness :
  heap w_cfg !! 1%positive = Some cfg_abc
  ∧ merge_dicts cfg_abc {[ "b" := VInt 99 ]} !! "b" = Some (VInt 99)
  ∧ merge_dicts cfg_abc {[ "b" := VInt 99 ]} !! "a" = Some (VInt 1).
Proof.
  assert (heap w_cfg !! 1%positive = Some cfg_abc) as Hcfg
    by (vm_compute; reflexivity).
  destruct (C3_merge_right_biased returns_kwargs Net 1%positive cfg_abc []
              {[ "b" := VInt 99 ]} w_cfg Hcfg)
    as (Hconfig & _ & Hboth & _).
  split; [exact Hcfg |]. split.
  - apply (Hboth "b" (VInt 2)); vm_compute; reflexivity.
  - apply (Hconfig "a" (VInt 1)); vm_compute; reflexivity.
Defined.

Lemma C4_witness :
  heap w_cfg !! 1%positive = Some cfg_abc
  ∧ has_var_keyword (parameters Net) = false
  ∧ new_calls w_cfg (instantiate returns_kwargs Net 1%positive ["name"] ∅ w_cfg).2
    = [(Net, recognized (parameters Net) (merge_dicts cfg_abc ∅))]
  ∧ new_warnings w_cfg (instantiate returns_kwargs Net 1%positive ["name"] ∅ w_cfg).2
    = if decide (superfluous (parameters Net) ["name"] (merge_dicts cfg_abc ∅) = ∅)
      then []
      else [(Net, superfluous (parameters Net) ["name"] (merge_dicts cfg_abc ∅))].
Proof.
  assert (heap w_cfg !! 1%positive = Some cfg_abc) as Hcfg
    by (vm_compute; reflexivity).
  assert (has_var_keyword (parameters Net) = false) as Hv by reflexivity.
  destruct (C4_extraneous_keys returns_kwargs Net 1%positive cfg_abc ["name"] ∅
              w_cfg Hcfg Hv)
    as (_ & _ & Hok & _).
  destruct (Hok eq_refl) as (_ & Hcalls & Hwarn).
  split; [exact Hcfg |]. split; [exact Hv |]. split; [exact Hcalls | exact Hwarn].
Defined.

Lemma C8_witness :
  heap w_cfg !! 1%positive = Some cfg_abc
  ∧ heap (instantiate returns_kwargs Net 1%positive [] ∅ w_cfg).2 !! 1%positive
    = Some cfg_abc.
Proof.
  assert (heap w_cfg !! 1%positive = Some cfg_abc) as Hcfg
    by (vm_compute; reflexivity).
  destruct (C8_config_not_mutated returns_kwargs Net "model" 1%positive cfg_abc []
              ∅ w_cfg "net" Hcfg)
    as (_ & Hi & _).
  split; [exact Hcfg | exact Hi].
Defined.



(** The calls of section 8 of the specification, on [Net] with parameters
    [(a, b)]. *)
Example instantiate_warns_about_c :
  let r := instantiate returns_kwargs Net 1%positive ["name"] ∅ w_cfg in
  r.1 = inr {[ "a" := VInt 1; "b" := VInt 2 ]}
  ∧ stderr r.2 = [(Net, {[ "c" := VInt 3 ]})]
  ∧ calls r.2 = [(Net, {[ "a" := VInt 1; "b" := VInt 2 ]})].
Proof. vm_compute. done. Qed.

Example instantiate_unused_c_is_silent :
  let r := instantiate returns_kwargs Net 1%positive ["name"; "c"] ∅ w_cfg in
  r.1 = inr {[ "a" := VInt 1; "b" := VInt 2 ]} ∧ stderr r.2 = [].
Proof. vm_compute. done. Qed.

Example instantiate_override_wins :
  (instantiate returns_kwargs Net 1%positive ["name"; "c"]
     {[ "b" := VInt 99 ]} w_cfg).1
  = inr {[ "a" := VInt 1; "b" := VInt 99 ]}.
Proof. vm_compute. done. Qed.

Example construct_str_like_mapping :
  (construct returns_kwargs "model" (Str "net") []
     {[ "a" := VInt 1; "b" := VInt 2 ]} w_reg).1
  = (construct returns_kwargs "model" (Mapping 1%positive) ["c"] ∅ w_reg_cfg).1.
Proof. vm_compute. done. Qed.

(** An override named "callable" never reaches the callable: the call of
    [instantiate] fails on its first parameter. *)
Example construct_override_named_callable :
  let r := construct returns_kwargs "model" (Str "net") []
             {[ "callable" := VInt 0; "a" := VInt 1; "b" := VInt 2 ]} w_reg in
  r.1 = inl (MultipleValuesError "callable")
  ∧ exception_of (MultipleValuesError "callable")
    = Exception TypeError
        (VStr "instantiate() got multiple values for argument 'callable'")
  ∧ calls r.2 = [] ∧ stderr r.2 = [].
Proof. vm_compute. done. Qed.

(** The one collision of the two [KeyError]s of [lookup]: a name that
    spells the message of the kind check. *)
Example lookup_errors_collide :
  lookup "model" (Str (nothing_registered "model")) w_init
  = (inl (UnknownKindError "model"), w_init)
  ∧ lookup "model" (Str (nothing_registered "model")) w_reg
    = (inl (UnknownNameError (VStr (nothing_registered "model"))), w_reg)
  ∧ exception_of (UnknownKindError "model")
    = exception_of (UnknownNameError (VStr (nothing_registered "model"))).
Proof. vm_compute. done. Qed.

(** ** Further properties of the registrar and the resolver *)

Lemma store_setitem_lookup (kind name k : string) (obj : callable)
    (s : gmap string bucket) :
  store_setitem kind name obj s !! k =
  if decide (k = kind) then Some (<[name := obj]> (bucket_of s kind)) else s !! k.
Proof.
  unfold store_setitem. case_decide as Hk.
  - subst. apply lookup_insert_eq.
  - by apply lookup_insert_ne.
Qed.

Lemma registered_store_lookup (kind name k : string) (obj : callable)
    (s : gmap string bucket) :
  kind ≠ class_map →
  registered_store kind name obj s !! k =
  if decide (k = class_map)
  then Some (<[qualified_name obj := obj]> (bucket_of s class_map))
  else if decide (k = kind)
       then Some (<[name := obj]> (bucket_of s kind))
       else s !! k.
Proof.
  intros Hkind. unfold registered_store. rewrite store_setitem_lookup.
  case_decide as Hk.
  - by rewrite bucket_of_setitem, decide_False, !bucket_of_ensure.
  - rewrite store_setitem_lookup. case_decide as Hk'.
    + by rewrite !bucket_of_ensure.
    + rewrite !ensure_lookup. by rewrite !decide_False.
Qed.

Lemma register_fresh_eq (kind name : string) (obj : callable) (w : world) :
  kind ≠ class_map →
  entry w kind name = None →
  register kind name obj w =
  (inr obj, with_store (registered_store kind name obj (LOOKUP_DICT w)) w).
Proof.
  intros Hk Hn. rewrite register_eq, decide_False by done. simpl.
  unfold entry in Hn. by rewrite Hn.
Qed.

(** X1.  A registration under a free [(kind, name)] returns the object it
    was given; afterwards [lookup(kind, name)] and [lookup_class_ref] of
    the qualified name both return that object, and every other entry of
    every bucket, the class map included, is as it was. *)
Theorem register_round_trip
    (w : world) (kind name : string) (obj : callable) :
  kind ≠ class_map →
  entry w kind name = None →
  let w' := (register kind name obj w).2 in
  (register kind name obj w).1 = inr obj
  ∧ lookup kind (Str name) w' = (inr obj, w')
  ∧ lookup_class_ref (qualified_name obj) w' = (inr obj, w')
  ∧ (∀ k n, k ≠ class_map → (k, n) ≠ (kind, name) → entry w' k n = entry w k n)
  ∧ (∀ n, n ≠ qualified_name obj → entry w' class_map n = entry w class_map n).
Proof.
  intros Hk Hn w'. unfold w'. rewrite (register_fresh_eq _ _ _ _ Hk Hn). simpl.
  set (s' := registered_store kind name obj (LOOKUP_DICT w)).
  assert (∀ k, bucket_of s' k =
               default ∅ (registered_store kind name obj (LOOKUP_DICT w) !! k)) as Hb
    by done.
  split; [done |]. split; [| split; [| split]].
  - rewrite lookup_str_eq. simpl. unfold s'.
    rewrite (registered_store_lookup _ _ _ _ _ Hk).
    rewrite decide_False, decide_True by done. by rewrite lookup_insert_eq.
  - rewrite lookup_class_ref_eq. simpl. rewrite Hb.
    rewrite (registered_store_lookup _ _ _ _ _ Hk), decide_True by done. simpl.
    rewrite lookup_insert_eq. f_equal. unfold with_store. simpl. f_equal.
    eapply ensure_present. unfold s'.
    rewrite (registered_store_lookup _ _ _ _ _ Hk). by rewrite decide_True.
  - intros k n Hkc Hkn. unfold entry. simpl. rewrite Hb.
    rewrite (registered_store_lookup _ _ _ _ _ Hk), decide_False by done.
    case_decide as Hkk; [| done]. subst k. simpl.
    rewrite lookup_insert_ne; [done |]. intros ->. by apply Hkn.
  - intros n Hne. unfold entry. simpl. rewrite Hb.
    rewrite (registered_store_lookup _ _ _ _ _ Hk), decide_True by done. simpl.
    by rewrite lookup_insert_ne.
Qed.

Lemma register_round_trip_witness :
  entry w_reg "trainer" "sgd" = None
  ∧ lookup "trainer" (Str "sgd") (register "trainer" "sgd" make_net w_reg).2
    = (inr make_net, (register "trainer" "sgd" make_net w_reg).2).
Proof.
  assert ("trainer" ≠ class_map) as Hk by (intros [=]).
  assert (entry w_reg "trainer" "sgd" = None) as Hn by (vm_compute; reflexivity).
  destruct (register_round_trip w_reg "trainer" "sgd" make_net Hk Hn)
    as (_ & Hl & _).
  split; [exact Hn | exact Hl].
Defined.

(** X2.  Two registrations under different [(kind, name)] pairs, of
    objects that do not share a qualified name unless they are the same
    object, both succeed in either order and leave the same world. *)
Theorem registrations_commute
    (w : world) (kind1 name1 kind2 name2 : string) (obj1 obj2 : callable) :
  kind1 ≠ class_map → kind2 ≠ class_map →
  (kind1, name1) ≠ (kind2, name2) →
  (qualified_name obj1 = qualified_name obj2 → obj1 = obj2) →
  entry w kind1 name1 = None → entry w kind2 name2 = None →
  let w1 := (register kind1 name1 obj1 w).2 in
  let w2 := (register kind2 name2 obj2 w).2 in
  (register kind2 name2 obj2 w1).1 = inr obj2
  ∧ (register kind1 name1 obj1 w2).1 = inr obj1
  ∧ (register kind2 name2 obj2 w1).2 = (register kind1 name1 obj1 w2).2.
Proof.
  intros Hk1 Hk2 Hne Hq Hn1 Hn2 w1 w2.
  assert (entry w1 kind2 name2 = None) as Hn2'.
  { unfold w1. rewrite entry_register by done.
    rewrite decide_False; [done |]. intros (_ & -> & -> & _). by apply Hne. }
  assert (entry w2 kind1 name1 = None) as Hn1'.
  { unfold w2. rewrite entry_register by done.
    rewrite decide_False; [done |]. intros (_ & -> & -> & _). by apply Hne. }
  rewrite (register_fresh_eq _ _ _ _ Hk2 Hn2'), (register_fresh_eq _ _ _ _ Hk1 Hn1').
  split; [done |]. split; [done |]. simpl.
  unfold w1, w2.
  rewrite (register_fresh_eq _ _ _ _ Hk1 Hn1), (register_fresh_eq _ _ _ _ Hk2 Hn2).
  unfold with_store. simpl. f_equal.
  apply map_eq. intros k.
  rewrite !(registered_store_lookup _ _ _ _ _ Hk1),
    !(registered_store_lookup _ _ _ _ _ Hk2).
  unfold bucket_of.
  rewrite !(registered_store_lookup _ _ _ _ _ Hk1),
    !(registered_store_lookup _ _ _ _ _ Hk2).
  rewrite !(decide_True (P := class_map = class_map)) by done.
  rewrite (decide_False (P := kind1 = class_map)) by done.
  rewrite (decide_False (P := kind2 = class_map)) by done.
  destruct (decide (k = class_map)) as [->|Hkc].
  - simpl. f_equal.
    destruct (decide (qualified_name obj1 = qualified_name obj2)) as [Heq|Hneq].
    + rewrite <- (Hq Heq). done.
    + by apply insert_insert_ne.
  - destruct (decide (k = kind1)) as [Hkk1|Hkk1];
      destruct (decide (k = kind2)) as [Hkk2|Hkk2];
      subst; repeat case_decide; subst; simpl; try done.
    f_equal. apply insert_insert_ne. intros ->. by apply Hne.
Qed.

Lemma registrations_commute_witness :
  (register "trainer" "sgd" make_net (register "model" "any" Any w_reg).2).2
  = (register "model" "any" Any (register "trainer" "sgd" make_net w_reg).2).2.
Proof.
  assert ("model" ≠ class_map) as Hk1 by (intros [=]).
  assert ("trainer" ≠ class_map) as Hk2 by (intros [=]).
  assert (("model", "any") ≠ ("trainer", "sgd")) as Hne by (intros [=]).
  assert (qualified_name Any = qualified_name make_net → Any = make_net) as Hq
    by (intros [=]).
  assert (entry w_reg "model" "any" = None) as Hn1 by (vm_compute; reflexivity).
  assert (entry w_reg "trainer" "sgd" = None) as Hn2 by (vm_compute; reflexivity).
  exact (proj2 (proj2 (registrations_commute w_reg "model" "any" "trainer" "sgd"
                         Any make_net Hk1 Hk2 Hne Hq Hn1 Hn2))).
Defined.

(** X3.  [lookup] only reads: whatever it returns or raises, the world
    afterwards is the world before.  In particular a lookup under an
    unknown kind leaves the store without a bucket for that kind, although
    the store is a defaultdict. *)
Theorem lookup_leaves_world (kind : string) (name : str_or_mapping) (w : world) :
  (lookup kind name w).2 = w.
Proof. by rewrite lookup_pure. Qed.

(** X4.  A mapping without a "name" field makes [lookup] fail at the
    subscript [name['name']], a [KeyError] on 'name', before the kind is
    looked at: the error is the same for a kind that has a bucket and for
    one that has none. *)
Theorem lookup_mapping_without_name
    (w : world) (kind : string) (l : loc) (m : dict) :
  heap w !! l = Some m →
  m !! "name" = None →
  lookup kind (Mapping l) w = (inl MissingNameFieldError, w)
  ∧ exception_of MissingNameFieldError = Exception KeyError (VStr "name").
Proof.
  intros Hl Hm. split; [| done].
  by rewrite lookup_mapping_eq, (lookup_total_correct _ _ _ Hl), Hm.
Qed.

Lemma lookup_mapping_without_name_witness :
  lookup "model" (Mapping 1%positive) w_reg_noname
  = (inl MissingNameFieldError, w_reg_noname)
  ∧ lookup "trainer" (Mapping 1%positive) w_reg_noname
    = (inl MissingNameFieldError, w_reg_noname).
Proof.
  assert (heap w_reg_noname !! 1%positive = Some {[ "a" := VInt 1 ]}) as Hl
    by (vm_compute; reflexivity).
  assert (({[ "a" := VInt 1 ]} : dict) !! "name" = None) as Hm
    by (vm_compute; reflexivity).
  split.
  - exact (proj1 (lookup_mapping_without_name w_reg_noname "model" 1%positive _ Hl Hm)).
  - exact (proj1 (lookup_mapping_without_name w_reg_noname "trainer" 1%positive _ Hl Hm)).
Defined.

(** ** Further properties of the class map *)

(** X5.  With an explicit name, [register_class_ref] checks nothing: any
    callable, a plain function or a class that does not derive from
    [Registrable] included, is stored under that name and returned;
    [lookup_class_ref] of the name then returns it, and the entries under
    other names, in the class map and in every other bucket, are as they
    were. *)
Theorem register_class_ref_named_round_trip
    (w : world) (class_ref : callable) (name : string) :
  let w' := (register_class_ref class_ref (Some name) w).2 in
  (register_class_ref class_ref (Some name) w).1 = inr class_ref
  ∧ lookup_class_ref name w' = (inr class_ref, w')
  ∧ (∀ k n, (k, n) ≠ (class_map, name) → entry w' k n = entry w k n).
Proof.
  intros w'. unfold w'. rewrite register_class_ref_named_eq. simpl.
  split; [done |]. split.
  - rewrite lookup_class_ref_eq. simpl.
    rewrite bucket_of_setitem, decide_True, lookup_insert_eq by done.
    f_equal. unfold with_store. simpl. f_equal.
    eapply ensure_present. rewrite store_setitem_lookup. by rewrite decide_True.
  - intros k n Hne. rewrite entry_with_store, bucket_of_setitem.
    case_decide as Hk; [| done]. subst k.
    rewrite lookup_insert_ne; [done |]. intros ->. by apply Hne.
Qed.

(** X6.  The class map is an ordinary bucket of the store: for an
    identity it holds, [lookup("class_map", identity)] and
    [lookup_class_ref(identity)] return the same callable, and neither
    changes the world. *)
Theorem lookup_reads_class_map (w : world) (class_name : string) (obj : callable) :
  entry w class_map class_name = Some obj →
  lookup class_map (Str class_name) w = (inr obj, w)
  ∧ lookup_class_ref class_name w = (inr obj, w).
Proof.
  intros He. pose proof (entry_Some_bucket _ _ _ _ He) as Hb.
  unfold entry in He. split.
  - by rewrite lookup_str_eq, Hb, He.
  - rewrite lookup_class_ref_eq, He. f_equal.
    by rewrite (ensure_present _ _ _ Hb), with_store_id.
Qed.

Lemma lookup_reads_class_map_witness :
  lookup class_map (Str "models.Net") w_reg = (inr Net, w_reg)
  ∧ lookup_class_ref "models.Net" w_reg = (inr Net, w_reg).
Proof.
  assert (entry w_reg class_map "models.Net" = Some Net) as He
    by (vm_compute; reflexivity).
  exact (lookup_reads_class_map w_reg "models.Net" Net He).
Defined.

(** X7.  [lookup_class_ref] is not a pure read.  On a store without a
    class map it raises its [KeyError] and leaves an empty "class_map"
    bucket behind; [lookup("class_map", ...)], which failed at the kind
    before, fails at the name afterwards. *)
Theorem lookup_class_ref_creates_class_map (w : world) (class_name : string) :
  LOOKUP_DICT w !! class_map = None →
  let w' := (lookup_class_ref class_name w).2 in
  (lookup_class_ref class_name w).1 = inl (UnknownClassError class_name)
  ∧ LOOKUP_DICT w' = <[class_map := ∅]> (LOOKUP_DICT w)
  ∧ lookup class_map (Str class_name) w = (inl (UnknownKindError class_map), w)
  ∧ lookup class_map (Str class_name) w'
    = (inl (UnknownNameError (VStr class_name)), w').
Proof.
  intros Hnone w'. unfold w'. rewrite lookup_class_ref_eq. simpl.
  unfold bucket_of, ensure. rewrite Hnone. simpl. rewrite lookup_empty.
  split; [done |]. split; [done |]. split.
  - by rewrite lookup_str_eq, Hnone.
  - rewrite lookup_str_eq. simpl. by rewrite lookup_insert_eq, lookup_empty.
Qed.

Lemma lookup_class_ref_creates_class_map_witness :
  LOOKUP_DICT (lookup_class_ref "models.Net" w_init).2 = {[ class_map := ∅ ]}.
Proof.
  assert (LOOKUP_DICT w_init !! class_map = None) as Hn by (vm_compute; reflexivity).
  destruct (lookup_class_ref_creates_class_map w_init "models.Net" Hn)
    as (_ & Hs & _).
  rewrite Hs. reflexivity.
Defined.

(** X8.  [get_name] of a class is its [type_name()], and so is [get_name]
    of an instance that is not callable; an instance that is callable has
    no name.  Hence, once a class is in the class map, through
    [register_class_ref] with the name omitted or through an ordinary
    registration, [lookup_class_ref] of the name of any of its plain
    instances returns the class. *)
Theorem get_name_resolves_class
    (w : world) (cls : callable) (kind name : string) :
  obj_sort cls = Class true →
  kind ≠ class_map →
  entry w kind name = None →
  get_name (ACallable cls) = Some (type_name cls)
  ∧ get_name (AnInstance cls false) = Some (type_name cls)
  ∧ get_name (AnInstance cls true) = None
  ∧ (∀ n, get_name (AnInstance cls false) = Some n →
          (lookup_class_ref n (register_class_ref cls None w).2).1 = inr cls
          ∧ (lookup_class_ref n (register kind name cls w).2).1 = inr cls).
Proof.
  intros Hc Hk Hn. split; [done |]. split; [done |]. split; [done |].
  intros n [= <-]. split.
  - rewrite register_class_ref_None_eq, Hc. simpl.
    rewrite lookup_class_ref_eq. simpl.
    by rewrite bucket_of_setitem, decide_True, lookup_insert_eq.
  - rewrite (register_fresh_eq _ _ _ _ Hk Hn). simpl.
    rewrite lookup_class_ref_eq. simpl. unfold bucket_of.
    rewrite (registered_store_lookup _ _ _ _ _ Hk), decide_True by done. simpl.
    by rewrite lookup_insert_eq.
Qed.

Lemma get_name_resolves_class_witness :
  get_name (AnInstance Net false) = Some "models.Net"
  ∧ (lookup_class_ref "models.Net" (register_class_ref Net None w_init).2).1
    = inr Net.
Proof.
  assert ("model" ≠ class_map) as Hk by (intros [=]).
  assert (entry w_init "model" "net" = None) as Hn by (vm_compute; reflexivity).
  destruct (get_name_resolves_class w_init Net "model" "net" eq_refl Hk Hn)
    as (_ & Hg & _ & Hr).
  split; [exact Hg |]. exact (proj1 (Hr "models.Net" Hg)).
Defined.

(** ** Further properties of the instantiator *)

Lemma first_unsupported_app (pre post : list (string * ParameterKind))
    (name : string) (k : ParameterKind) :
  (∀ n' k', (n', k') ∈ pre → k' ≠ POSITIONAL_ONLY ∧ k' ≠ VAR_POSITIONAL) →
  k = POSITIONAL_ONLY ∨ k = VAR_POSITIONAL →
  first_unsupported (pre ++ (name, k) :: post) = Some (name, k).
Proof.
  intros Hpre Hk. induction pre as [|[n' k'] pre IH]; simpl.
  - by destruct Hk as [-> | ->].
  - assert ((n', k') ∈ (n', k') :: pre) as Hhd by left.
    destruct (Hpre n' k' Hhd) as [? ?].
    assert (first_unsupported (pre ++ (name, k) :: post) = Some (name, k)) as ->.
    { apply IH. intros n'' k'' Hin. apply (Hpre n''). by right. }
    by destruct k'.
Qed.

Section InstantiatorMore.

Context {instance : Type}.
Variable apply_callable : callable → dict → exception + instance.

(** What a caller observes of a call of [instantiate]: the result, the
    calls made and the warnings printed are a function of the callable, of
    the content of [config] and of the other arguments; the registry is
    not written. *)
Lemma instantiate_observed (c : callable) (config : loc)
    (unused_keys : list string) (kwargs : dict) (w : world) :
  let merged := merge_dicts (heap w !!! config) kwargs in
  let r := instantiate apply_callable c config unused_keys kwargs w in
  (r.1, new_calls w r.2, new_warnings w r.2) =
  match first_unsupported (parameters c) with
  | Some (name, k) => (inl (UnsupportedParameterKindError name k), [], [])
  | None =>
      if has_var_keyword (parameters c)
      then (called apply_callable c merged, [(c, merged)], [])
      else (called apply_callable c (recognized (parameters c) merged),
            [(c, recognized (parameters c) merged)],
            if decide (superfluous (parameters c) unused_keys merged = ∅)
            then []
            else [(c, superfluous (parameters c) unused_keys merged)])
  end
  ∧ LOOKUP_DICT r.2 = LOOKUP_DICT w.
Proof.
  intros merged r. unfold r, merged.
  destruct (first_unsupported (parameters c)) as [[name k]|] eqn:Hu.
  - rewrite (instantiate_unsupported _ _ _ _ _ _ _ _ Hu). simpl.
    by rewrite new_calls_none, new_warnings_none.
  - destruct (has_var_keyword (parameters c)) eqn:Hv.
    + rewrite (instantiate_var_keyword _ _ _ _ _ _ Hu Hv). simpl.
      by erewrite new_calls_app, new_warnings_none.
    + rewrite (instantiate_filtered _ _ _ _ _ _ Hu Hv). simpl.
      by erewrite new_calls_app, new_warnings_app.
Qed.

(** X9.  [instantiate] and [construct] never write the registry: the
    store after the call is the store before it, on every path. *)
Theorem instantiation_leaves_registry
    (c : callable) (kind : string) (config : loc) (cfg : str_or_mapping)
    (unused_keys : list string) (kwargs : dict) (w : world) :
  LOOKUP_DICT (instantiate apply_callable c config unused_keys kwargs w).2
  = LOOKUP_DICT w
  ∧ LOOKUP_DICT (construct apply_callable kind cfg unused_keys kwargs w).2
    = LOOKUP_DICT w.
Proof.
  split; [apply instantiate_observed |].
  rewrite construct_eq. simpl.
  destruct ((lookup kind cfg w).1) as [e|c'].
  - by destruct cfg.
  - destruct (colliding_override kwargs); [by destruct cfg |].
    rewrite (proj2 (instantiate_observed _ _ _ _ _)). by destruct cfg.
Qed.

(** X10.  When [lookup] fails, [construct] raises the error of [lookup]:
    no callable is called and nothing is printed. *)
Theorem construct_lookup_failure
    (kind : string) (config : str_or_mapping) (unused_keys : list string)
    (kwargs : dict) (w : world) (e : error) :
  (lookup kind config w).1 = inl e →
  let r := construct apply_callable kind config unused_keys kwargs w in
  r.1 = inl e ∧ new_calls w r.2 = [] ∧ new_warnings w r.2 = [].
Proof.
  intros Hl r. unfold r. rewrite construct_eq, Hl. simpl.
  split; [done |]. split.
  - apply new_calls_none. by destruct config.
  - apply new_warnings_none. by destruct config.
Qed.

(** X11.  [construct(kind, "name")] behaves as [construct] on a dict
    [{'name': "name"}]: the same result, the same calls, the same
    warnings, the same registry. *)
Theorem construct_str_as_mapping
    (kind s : string) (l : loc) (unused_keys : list string) (kwargs : dict)
    (w : world) :
  heap w !! l = Some {[ "name" := VStr s ]} →
  let r1 := construct apply_callable kind (Str s) unused_keys kwargs w in
  let r2 := construct apply_callable kind (Mapping l) unused_keys kwargs w in
  r1.1 = r2.1
  ∧ new_calls w r1.2 = new_calls w r2.2
  ∧ new_warnings w r1.2 = new_warnings w r2.2
  ∧ LOOKUP_DICT r1.2 = LOOKUP_DICT r2.2.
Proof.
  intros Hl r1 r2. unfold r1, r2. rewrite !construct_eq. simpl.
  assert ((lookup kind (Mapping l) w).1 = (lookup kind (Str s) w).1) as ->.
  { rewrite lookup_mapping_eq, lookup_str_eq, (lookup_total_correct _ _ _ Hl).
    rewrite lookup_singleton_eq.
    destruct (LOOKUP_DICT w !! kind) as [b|]; [| done]. simpl.
    by destruct (b !! s). }
  destruct ((lookup kind (Str s) w).1) as [e|c]; [done |].
  destruct (colliding_override kwargs); [done |].
  set (w0 := with_heap _ w).
  pose proof (instantiate_observed c (fresh (dom (heap w)))
                (unused_keys ++ ["name"]) kwargs w0) as [H1 _].
  pose proof (instantiate_observed c l (unused_keys ++ ["name"]) kwargs w)
    as [H2 _].
  cbv zeta in H1, H2.
  assert ((heap w0 !!! fresh (dom (heap w)) : dict) = heap w !!! l) as Hsame.
  { unfold w0. simpl.
    by rewrite lookup_total_insert_eq, (lookup_total_correct _ _ _ Hl). }
  rewrite Hsame in H1. rewrite <- H2 in H1.
  injection H1 as Ha Hb Hc.
  split; [exact Ha |]. split; [exact Hb |]. split; [exact Hc |].
  by rewrite !(proj2 (instantiate_observed _ _ _ _ _)).
Qed.

(** X12.  [unused_keys] only decides what is reported.  The result of
    [instantiate], the call it makes and the heap it leaves are the same
    for any two lists of unused keys. *)
Theorem unused_keys_only_affect_warning
    (c : callable) (config : loc) (unused1 unused2 : list string)
    (kwargs : dict) (w : world) :
  let r1 := instantiate apply_callable c config unused1 kwargs w in
  let r2 := instantiate apply_callable c config unused2 kwargs w in
  r1.1 = r2.1 ∧ calls r1.2 = calls r2.2 ∧ heap r1.2 = heap r2.2.
Proof.
  intros r1 r2. unfold r1, r2.
  destruct (first_unsupported (parameters c)) as [[name k]|] eqn:Hu.
  - by rewrite !(instantiate_unsupported _ _ _ _ _ _ _ _ Hu).
  - destruct (has_var_keyword (parameters c)) eqn:Hv.
    + by rewrite !(instantiate_var_keyword _ _ _ _ _ _ Hu Hv).
    + by rewrite !(instantiate_filtered _ _ _ _ _ _ Hu Hv).
Qed.

(** X13.  For a callable with a catch-all keyword parameter [instantiate]
    prints no warning, whatever keys [config] and the overrides carry and
    whatever [unused_keys] lists. *)
Theorem catch_all_never_warns
    (c : callable) (config : loc) (unused_keys : list string)
    (kwargs : dict) (w : world) :
  has_var_keyword (parameters c) = true →
  stderr (instantiate apply_callable c config unused_keys kwargs w).2 = stderr w.
Proof.
  intros Hv.
  destruct (first_unsupported (parameters c)) as [[name k]|] eqn:Hu.
  - by rewrite (instantiate_unsupported _ _ _ _ _ _ _ _ Hu).
  - by rewrite (instantiate_var_keyword _ _ _ _ _ _ Hu Hv).
Qed.

(** X14.  Nothing is cached: a second [instantiate] on the same config,
    right after the first, gives the same result, calls the callable
    again with the same arguments and prints the same warning again. *)
Theorem instantiate_repeatable
    (c : callable) (config : loc) (cfg : dict) (unused_keys : list string)
    (kwargs : dict) (w : world) :
  heap w !! config = Some cfg →
  let r1 := instantiate apply_callable c config unused_keys kwargs w in
  let r2 := instantiate apply_callable c config unused_keys kwargs r1.2 in
  r2.1 = r1.1
  ∧ new_calls r1.2 r2.2 = new_calls w r1.2
  ∧ new_warnings r1.2 r2.2 = new_warnings w r1.2.
Proof.
  intros Hcfg r1 r2.
  pose proof (instantiate_observed c config unused_keys kwargs w) as [H1 _].
  pose proof (instantiate_observed c config unused_keys kwargs r1.2) as [H2 _].
  cbv zeta in H1, H2. fold r1 in H1. fold r2 in H2.
  assert ((heap r1.2 !!! config : dict) = heap w !!! config) as Hsame.
  { rewrite (lookup_total_correct _ _ _ Hcfg). apply lookup_total_correct.
    by apply instantiate_heap_kept. }
  rewrite Hsame, <- H1 in H2. injection H2 as Ha Hb Hc. done.
Qed.

(** X15.  The parameter check decides whether the callable is called.
    If some parameter is positional-only or variadic-positional,
    [instantiate] raises the unsupported-kind ValueError for one such
    parameter and calls nothing.  Otherwise it calls the callable exactly
    once and hands back what the call gives, instance or exception.  So
    the callable is left uncalled exactly when the signature has such a
    parameter. *)
Theorem unsupported_kind_iff_not_called
    (c : callable) (config : loc) (unused_keys : list string)
    (kwargs : dict) (w : world) :
  let r := instantiate apply_callable c config unused_keys kwargs w in
  let unsupported :=
    ∃ name k, (name, k) ∈ parameters c
              ∧ (k = POSITIONAL_ONLY ∨ k = VAR_POSITIONAL) in
  (unsupported ↔ new_calls w r.2 = [])
  ∧ (unsupported →
     ∃ name k, (name, k) ∈ parameters c
               ∧ (k = POSITIONAL_ONLY ∨ k = VAR_POSITIONAL)
               ∧ r.1 = inl (UnsupportedParameterKindError name k)
               ∧ exc_type (exception_of (UnsupportedParameterKindError name k))
                 = ValueError)
  ∧ (¬ unsupported →
     ∃ args, new_calls w r.2 = [(c, args)]
             ∧ r.1 = called apply_callable c args).
Proof.
  intros r unsupported. unfold r, unsupported.
  pose proof (instantiate_observed c config unused_keys kwargs w) as [H _].
  cbv zeta in H.
  destruct (first_unsupported (parameters c)) as [[n' k']|] eqn:Hu.
  - injection H as Hr Hc _.
    pose proof (first_unsupported_Some _ _ _ Hu) as [Hin Hk].
    split; [| split].
    + split; [done | intros _; eauto].
    + intros _. exists n', k'. repeat (split; [done |]). reflexivity.
    + intros Hno. exfalso. apply Hno. eauto.
  - assert (¬ (∃ name k, (name, k) ∈ parameters c
                         ∧ (k = POSITIONAL_ONLY ∨ k = VAR_POSITIONAL))) as Hno.
    { intros (name & k & Hin & Hk).
      destruct (first_unsupported_is_Some _ _ _ Hin Hk) as [x Hx].
      rewrite Hu in Hx. discriminate Hx. }
    assert (∃ args,
              new_calls w (instantiate apply_callable c config unused_keys kwargs w).2
              = [(c, args)]
              ∧ (instantiate apply_callable c config unused_keys kwargs w).1
                = called apply_callable c args) as (args & Hc & Hr).
    { destruct (has_var_keyword (parameters c)); injection H as Hr Hc _; eauto. }
    split; [| split].
    + split; [done |]. rewrite Hc. discriminate.
    + done.
    + eauto.
Qed.

(** X16.  The error names the first offending parameter in declaration
    order, whatever follows it. *)
Theorem first_unsupported_parameter_is_reported
    (c : callable) (config : loc) (unused_keys : list string) (kwargs : dict)
    (w : world) (pre post : list (string * ParameterKind))
    (name : string) (k : ParameterKind) :
  parameters c = (pre ++ (name, k) :: post)%list →
  (∀ n' k', (n', k') ∈ pre → k' ≠ POSITIONAL_ONLY ∧ k' ≠ VAR_POSITIONAL) →
  k = POSITIONAL_ONLY ∨ k = VAR_POSITIONAL →
  (instantiate apply_callable c config unused_keys kwargs w).1
  = inl (UnsupportedParameterKindError name k).
Proof.
  intros Hps Hpre Hk.
  assert (first_unsupported (parameters c) = Some (name, k)) as Hu
    by (rewrite Hps; by apply first_unsupported_app).
  by rewrite (instantiate_unsupported _ _ _ _ _ _ _ _ Hu).
Qed.

(** X17.  [construct] never reports the "name" field: no warning it
    prints lists "name" among the superfluous keys, whether or not the
    caller put "name" into [unused_keys]. *)
Theorem construct_never_reports_name
    (kind : string) (config : str_or_mapping) (unused_keys : list string)
    (kwargs : dict) (w : world) (c : callable) (missing : dict) :
  (c, missing)
    ∈ new_warnings w (construct apply_callable kind config unused_keys kwargs w).2 →
  missing !! "name" = None.
Proof.
  rewrite construct_eq. simpl.
  set (w0 := match config with
             | Str s =>
                 with_heap
                   (<[fresh (dom (heap w)) := {[ "name" := VStr s ]}]> (heap w)) w
             | Mapping _ => w
             end).
  assert (stderr w0 = stderr w) as Hst by (unfold w0; by destruct config).
  assert (∀ w', new_warnings w w' = new_warnings w0 w') as Heq
    by (intros w'; unfold new_warnings; by rewrite Hst).
  destruct ((lookup kind config w).1) as [e|c'].
  { rewrite new_warnings_none by done. intros Hin. by apply elem_of_nil in Hin. }
  destruct (colliding_override kwargs).
  { rewrite new_warnings_none by done. intros Hin. by apply elem_of_nil in Hin. }
  rewrite Heq.
  pose proof (instantiate_observed c' (match config with
                                       | Str _ => fresh (dom (heap w))
                                       | Mapping l => l
                                       end)
                (unused_keys ++ ["name"]) kwargs w0) as [H _].
  cbv zeta in H.
  destruct (first_unsupported (parameters c')) as [[n k]|].
  { injection H as _ _ ->. intros Hin. by apply elem_of_nil in Hin. }
  destruct (has_var_keyword (parameters c')).
  { injection H as _ _ ->. intros Hin. by apply elem_of_nil in Hin. }
  injection H as _ _ ->. case_decide.
  { intros Hin. by apply elem_of_nil in Hin. }
  intros Hin. apply list_elem_of_singleton in Hin. injection Hin as -> ->.
  rewrite superfluous_lookup, decide_True; [done |].
  right. apply elem_of_app. right. by left.
Qed.

End InstantiatorMore.

Lemma construct_lookup_failure_witness :
  (lookup "trainer" (Str "sgd") w_reg).1 = inl (UnknownKindError "trainer")
  ∧ (construct returns_kwargs "trainer" (Str "sgd") [] ∅ w_reg).1
    = inl (UnknownKindError "trainer").
Proof.
  assert ((lookup "trainer" (Str "sgd") w_reg).1 = inl (UnknownKindError "trainer"))
    as Hl by (vm_compute; reflexivity).
  split; [exact Hl |].
  exact (proj1 (construct_lookup_failure returns_kwargs "trainer" (Str "sgd") [] ∅
                  w_reg _ Hl)).
Defined.

Lemma construct_str_as_mapping_witness :
  heap w_reg_name !! 1%positive = Some {[ "name" := VStr "net" ]}
  ∧ (construct returns_kwargs "model" (Str "net") [] ∅ w_reg_name).1
    = (construct returns_kwargs "model" (Mapping 1%positive) [] ∅ w_reg_name).1.
Proof.
  assert (heap w_reg_name !! 1%positive = Some {[ "name" := VStr "net" ]}) as Hl
    by (vm_compute; reflexivity).
  split; [exact Hl |].
  exact (proj1 (construct_str_as_mapping returns_kwargs "model" "net" 1%positive
                  [] ∅ w_reg_name Hl)).
Defined.

Lemma catch_all_never_warns_witness :
  has_var_keyword (parameters Any) = true
  ∧ stderr (instantiate returns_kwargs Any 1%positive [] ∅ w_cfg).2 = stderr w_cfg.
Proof.
  split; [reflexivity |].
  exact (catch_all_never_warns returns_kwargs Any 1%positive [] ∅ w_cfg eq_refl).
Defined.

Lemma instantiate_repeatable_witness :
  heap w_cfg !! 1%positive = Some cfg_abc
  ∧ (instantiate returns_kwargs Net 1%positive [] ∅
       (instantiate returns_kwargs Net 1%positive [] ∅ w_cfg).2).1
    = (instantiate returns_kwargs Net 1%positive [] ∅ w_cfg).1.
Proof.
  assert (heap w_cfg !! 1%positive = Some cfg_abc) as Hcfg
    by (vm_compute; reflexivity).
  split; [exact Hcfg |].
  exact (proj1 (instantiate_repeatable returns_kwargs Net 1%positive cfg_abc [] ∅
                  w_cfg Hcfg)).
Defined.

Lemma first_unsupported_parameter_is_reported_witness :
  (instantiate returns_kwargs VarPos 1%positive [] ∅ w_cfg).1
  = inl (UnsupportedParameterKindError "args" VAR_POSITIONAL).
Proof.
  apply (first_unsupported_parameter_is_reported returns_kwargs VarPos 1%positive
           [] ∅ w_cfg [("a", POSITIONAL_OR_KEYWORD)] [("x", POSITIONAL_ONLY)]).
  - reflexivity.
  - intros n' k' Hin. apply list_elem_of_singleton in Hin.
    injection Hin as -> ->. split; intros [=].
  - by right.
Defined.

Lemma construct_never_reports_name_witness :
  (Net, {[ "c" := VInt 3 ]})
    ∈ new_warnings w_reg_cfg
        (construct returns_kwargs "model" (Mapping 1%positive) [] ∅ w_reg_cfg).2
  ∧ ({[ "c" := VInt 3 ]} : dict) !! "name" = None.
Proof.
  assert ((Net, ({[ "c" := VInt 3 ]} : dict))
            ∈ new_warnings w_reg_cfg
                (construct returns_kwargs "model" (Mapping 1%positive) [] ∅
                   w_reg_cfg).2) as Hin.
  { assert (new_warnings w_reg_cfg
              (construct returns_kwargs "model" (Mapping 1%positive) [] ∅
                 w_reg_cfg).2 = [(Net, {[ "c" := VInt 3 ]})]) as ->
      by (vm_compute; reflexivity).
    by left. }
  split; [exact Hin |].
  exact (construct_never_reports_name returns_kwargs "model" (Mapping 1%positive)
           [] ∅ w_reg_cfg Net _ Hin).
Defined.

Lemma unsupported_kind_iff_not_called_witness :
  new_calls w_cfg (instantiate returns_kwargs PosOnly 1%positive [] ∅ w_cfg).2 = []
  ∧ ∃ args,
      new_calls w_cfg (instantiate returns_kwargs Net 1%positive [] ∅ w_cfg).2
      = [(Net, args)]
      ∧ (instantiate returns_kwargs Net 1%positive [] ∅ w_cfg).1
        = called returns_kwargs Net args.
Proof.
  split.
  - pose proof (unsupported_kind_iff_not_called returns_kwargs PosOnly 1%positive
                  [] ∅ w_cfg) as H.
    cbv zeta in H. destruct H as ((Hto & _) & _).
    apply Hto. exists "x", POSITIONAL_ONLY. split; [by left | by left].
  - pose proof (unsupported_kind_iff_not_called returns_kwargs Net 1%positive
                  [] ∅ w_cfg) as H.
    cbv zeta in H. destruct H as (_ & _ & Hcall).
    apply Hcall. intros (name & k & Hin & Hk). simpl in Hin.
    apply elem_of_cons in Hin as [Hin|Hin].
    { injection Hin as -> ->. by destruct Hk. }
    apply list_elem_of_singleton in Hin. injection Hin as -> ->. by destruct Hk.
Defined.
